(** * pdfmm: the PDF value model (PdfVariant) and the indirect object list

    A shallow embedding of [src/pdfmm/base/PdfVariant.cpp] (typed accessors,
    equality, serialization) and of the indirect object list declared in
    [PdfIndirectObjectList.h], together with the properties that the
    specification states about them.

    Layout: Part I holds the definitions, Part II the lemmas and theorems. *)

From Stdlib Require Import ZArith QArith Qabs Floats Ascii DecimalString.
From stdpp Require Import gmap strings list fin_maps.

Close Scope Q_scope.
Local Open Scope Z_scope.

(* ===================================================================== *)
(** * Part I: definitions                                                 *)
(* ===================================================================== *)

(** ** Outcomes of a call

    A member function either returns, raises a [PdfError] carrying a
    [PdfErrorCode], or faults: it reads outside a buffer, where the language
    defines no behaviour.  Only the error codes used by the modelled code
    are listed. *)

Inductive PdfErrorCode :=
| InvalidHandle
| InvalidDataType
| NotImplemented
| NoObject.

Inductive result (A : Type) :=
| Ok (a : A)
| Raise (e : PdfErrorCode)
| Fault.
Arguments Ok {A} a.
Arguments Raise {A} e.
Arguments Fault {A}.

#[global] Instance result_ret : MRet result := λ A a, Ok a.

#[global] Instance result_bind : MBind result := λ A B k m,
  match m with
  | Ok a => k a
  | Raise e => Raise e
  | Fault => Fault
  end.

Definition PDFMM_RAISE_ERROR {A} (e : PdfErrorCode) : result A := Raise e.

(** ** PdfDataType ([PdfDeclarations.h]) *)

Module PdfDataType.
Inductive t :=
| Unknown
| Bool
| Number
| Real
| String
| Name
| Array
| Dictionary
| Null
| Reference
| RawData.

Definition eqb (a b : t) : bool :=
  match a, b with
  | Unknown, Unknown | Bool, Bool | Number, Number | Real, Real
  | String, String | Name, Name | Array, Array | Dictionary, Dictionary
  | Null, Null | Reference, Reference | RawData, RawData => true
  | _, _ => false
  end.
End PdfDataType.

(** ** PdfReference *)

(** Modelled from the spec: [PdfReference], whose header is not part of the
    sources.  "ObjectId: (number: unsigned, generation: unsigned)". *)
Definition PdfReference : Type := nat * nat.

Definition ObjectNumber (r : PdfReference) : nat := r.1.
Definition GenerationNumber (r : PdfReference) : nat := r.2.

(** Modelled from the spec: the default constructor of [PdfReference].
    "(0,0) is the null/unassigned sentinel". *)
Definition PdfReference_default : PdfReference := (0%nat, 0%nat).

(** Modelled from the spec: [PdfReference::operator==].  "Pure value type";
    two ids are equal when number and generation are. *)
Definition PdfReference_eqb (a b : PdfReference) : bool :=
  Nat.eqb (ObjectNumber a) (ObjectNumber b)
  && Nat.eqb (GenerationNumber a) (GenerationNumber b).

(** ** PdfVariant

    The tag [m_DataType] and the union [m_Data] are one sum type: each
    constructor carries the payload that is valid for its tag.  [Number] is a
    64-bit signed integer, [Real] an IEEE binary64 double.  The payloads
    behind [m_Data.Data] are owned copies (every public constructor allocates
    one), so the pointer is never null and the value is the payload
    itself. *)

Definition PdfString : Type := string.
Definition PdfName : Type := string.
Definition PdfData : Type := string.

#[warnings="-register-all"]
Inductive PdfVariant :=
| VUnknown
| VBool (b : bool)
| VNumber (n : Z)
| VReal (d : float)
| VString (s : PdfString)
| VName (n : PdfName)
| VArray (a : list PdfVariant)
| VDictionary (d : list (PdfName * PdfVariant))
| VNull
| VReference (r : PdfReference)
| VRawData (d : PdfData).

Definition PdfArray : Type := list PdfVariant.
Definition PdfDictionary : Type := list (PdfName * PdfVariant).

Definition m_DataType (v : PdfVariant) : PdfDataType.t :=
  match v with
  | VUnknown => PdfDataType.Unknown
  | VBool _ => PdfDataType.Bool
  | VNumber _ => PdfDataType.Number
  | VReal _ => PdfDataType.Real
  | VString _ => PdfDataType.String
  | VName _ => PdfDataType.Name
  | VArray _ => PdfDataType.Array
  | VDictionary _ => PdfDataType.Dictionary
  | VNull => PdfDataType.Null
  | VReference _ => PdfDataType.Reference
  | VRawData _ => PdfDataType.RawData
  end.

Definition IsBool (v : PdfVariant) : bool :=
  PdfDataType.eqb (m_DataType v) PdfDataType.Bool.
Definition IsNumber (v : PdfVariant) : bool :=
  PdfDataType.eqb (m_DataType v) PdfDataType.Number.
Definition IsRealStrict (v : PdfVariant) : bool :=
  PdfDataType.eqb (m_DataType v) PdfDataType.Real.
Definition IsNumberOrReal (v : PdfVariant) : bool :=
  PdfDataType.eqb (m_DataType v) PdfDataType.Number
  || PdfDataType.eqb (m_DataType v) PdfDataType.Real.
Definition IsString (v : PdfVariant) : bool :=
  PdfDataType.eqb (m_DataType v) PdfDataType.String.
Definition IsName (v : PdfVariant) : bool :=
  PdfDataType.eqb (m_DataType v) PdfDataType.Name.
Definition IsArray (v : PdfVariant) : bool :=
  PdfDataType.eqb (m_DataType v) PdfDataType.Array.
Definition IsDictionary (v : PdfVariant) : bool :=
  PdfDataType.eqb (m_DataType v) PdfDataType.Dictionary.
Definition IsRawData (v : PdfVariant) : bool :=
  PdfDataType.eqb (m_DataType v) PdfDataType.RawData.
Definition IsNull (v : PdfVariant) : bool :=
  PdfDataType.eqb (m_DataType v) PdfDataType.Null.
Definition IsReference (v : PdfVariant) : bool :=
  PdfDataType.eqb (m_DataType v) PdfDataType.Reference.

(** ** Doubles and 64-bit integers *)

Definition INT64_MIN : Z := - 2 ^ 63.
Definition INT64_MAX : Z := 2 ^ 63 - 1.

Definition in_int64 (z : Z) : bool := (INT64_MIN <=? z) && (z <=? INT64_MAX).

(** The exact value of a finite double [(-1)^s * m * 2^e]; [None] for an
    infinity or a NaN. *)
Definition dyadic (s : bool) (m : positive) (e : Z) : Q :=
  let n := if s then Z.neg m else Z.pos m in
  if 0 <=? e then inject_Z (n * 2 ^ e) else Qmake n (Z.to_pos (2 ^ (- e))).

Definition double_value (d : float) : option Q :=
  match Prim2SF d with
  | S754_zero _ => Some (inject_Z 0)
  | S754_finite s m e => Some (dyadic s m e)
  | S754_infinity _ | S754_nan => None
  end.

(** [std::round]: the nearest integer, halfway cases away from zero.  The
    result of [std::round] is an integer-valued double (or the infinity or
    NaN it was given); it is represented by that integer. *)
Definition std_round (d : float) : option Z :=
  match Prim2SF d with
  | S754_zero _ => Some 0
  | S754_finite s m e =>
      let a :=
        if 0 <=? e then Z.pos m * 2 ^ e
        else (Z.pos m + 2 ^ (- e - 1)) / 2 ^ (- e) in
      Some (if s then - a else a)
  | S754_infinity _ | S754_nan => None
  end.

(** [static_cast<double>(int64_t)]: the nearest double, ties to even. *)
Definition static_cast_double (n : Z) : float :=
  SF2Prim (binary_normalize prec emax n 0 false).

(** ** Collaborators of PdfVariant.cpp

    [PdfVariant.cpp] calls into classes and constants whose definitions are
    not part of the sources: the comparison operators and the [Write]
    methods of the payload classes, the [PdfWriteMode::Compact] flag, and the
    conversion of a double that no [int64_t] represents (which the language
    leaves open and the target fixes).  They are parameters of the model. *)

Class PdfEnv := {
  PdfEncrypt : Type;
  (** the bit of [PdfWriteMode::Compact] *)
  Compact : Z;
  (** [static_cast<int64_t>] of a double outside the range of [int64_t] *)
  int64_of_unrepresentable : float → Z;
  (** the sign bit of a NaN, which [operator<<] prints: the doubles of the
      model have one NaN, those of the code a NaN of either sign *)
  NaN_sign : bool;
  PdfString_eq : PdfString → PdfString → result bool;
  PdfString_ne : PdfString → PdfString → result bool;
  PdfName_eq : PdfName → PdfName → result bool;
  PdfName_ne : PdfName → PdfName → result bool;
  PdfArray_eq : PdfArray → PdfArray → result bool;
  PdfArray_ne : PdfArray → PdfArray → result bool;
  PdfDictionary_eq : PdfDictionary → PdfDictionary → result bool;
  PdfDictionary_ne : PdfDictionary → PdfDictionary → result bool;
  (** [PdfReference::Write] and the virtual [PdfDataProvider::Write] of the
      payload classes: they append to the device or raise *)
  PdfReference_Write :
    PdfReference → string → Z → option PdfEncrypt → result string;
  PdfDataProvider_Write :
    PdfVariant → string → Z → option PdfEncrypt → result string;
}.

Section Variant.
Context `{env : PdfEnv}.

(** [static_cast<int64_t>(std::round(x))] *)
Definition static_cast_int64_round (d : float) : Z :=
  match std_round d with
  | Some z => if in_int64 z then z else int64_of_unrepresentable d
  | None => int64_of_unrepresentable d
  end.

(** *** Try accessors

    An accessor [bool TryGetX(T& value) const] is a function from the variant
    to the returned flag and the value left in the output parameter. *)

Definition TryGetBool (v : PdfVariant) : result (bool * bool) :=
  match v with
  | VBool b => mret (true, b)
  | _ => mret (false, false)
  end.

Definition TryGetNumberLenient (v : PdfVariant) : result (bool * Z) :=
  if negb (PdfDataType.eqb (m_DataType v) PdfDataType.Number
           || PdfDataType.eqb (m_DataType v) PdfDataType.Real)
  then mret (false, 0)
  else
    match v with
    | VReal d => mret (true, static_cast_int64_round d)
    | VNumber n => mret (true, n)
    | _ => mret (false, 0)
    end.

Definition TryGetNumber (v : PdfVariant) : result (bool * Z) :=
  match v with
  | VNumber n => mret (true, n)
  | _ => mret (false, 0)
  end.

Definition TryGetReal (v : PdfVariant) : result (bool * float) :=
  if negb (PdfDataType.eqb (m_DataType v) PdfDataType.Real
           || PdfDataType.eqb (m_DataType v) PdfDataType.Number)
  then mret (false, 0%float)
  else
    match v with
    | VNumber n => mret (true, static_cast_double n)
    | VReal d => mret (true, d)
    | _ => mret (false, 0%float)
    end.

Definition TryGetRealStrict (v : PdfVariant) : result (bool * float) :=
  match v with
  | VReal d => mret (true, d)
  | _ => mret (false, 0%float)
  end.

(** The private accessors hand out a pointer to the payload, [nullptr] on
    a mismatch. *)
Definition tryGetString (v : PdfVariant) : result (bool * option PdfString) :=
  match v with
  | VString s => mret (true, Some s)
  | _ => mret (false, None)
  end.

Definition TryGetString (v : PdfVariant) : result (bool * PdfString) :=
  '(ok, ret) ← tryGetString v;
  match ok, ret with
  | true, Some s => mret (true, s)
  | _, _ => mret (false, EmptyString)
  end.

Definition tryGetName (v : PdfVariant) : result (bool * option PdfName) :=
  match v with
  | VName n => mret (true, Some n)
  | _ => mret (false, None)
  end.

Definition TryGetName (v : PdfVariant) : result (bool * PdfName) :=
  '(ok, ret) ← tryGetName v;
  match ok, ret with
  | true, Some n => mret (true, n)
  | _, _ => mret (false, EmptyString)
  end.

Definition TryGetReference (v : PdfVariant) : result (bool * PdfReference) :=
  match v with
  | VReference r => mret (true, r)
  | _ => mret (false, PdfReference_default)
  end.

Definition tryGetArray (v : PdfVariant) : result (bool * option PdfArray) :=
  match v with
  | VArray a => mret (true, Some a)
  | _ => mret (false, None)
  end.

Definition TryGetArray (v : PdfVariant) : result (bool * option PdfArray) :=
  tryGetArray v.

Definition tryGetDictionary (v : PdfVariant)
  : result (bool * option PdfDictionary) :=
  match v with
  | VDictionary d => mret (true, Some d)
  | _ => mret (false, None)
  end.

Definition TryGetDictionary (v : PdfVariant)
  : result (bool * option PdfDictionary) :=
  tryGetDictionary v.

(** *** Direct accessors *)

Definition GetBool (v : PdfVariant) : result bool :=
  '(ok, ret) ← TryGetBool v;
  if negb ok then PDFMM_RAISE_ERROR InvalidDataType else mret ret.

Definition GetNumberLenient (v : PdfVariant) : result Z :=
  '(ok, ret) ← TryGetNumberLenient v;
  if negb ok then PDFMM_RAISE_ERROR InvalidDataType else mret ret.

Definition GetNumber (v : PdfVariant) : result Z :=
  '(ok, ret) ← TryGetNumber v;
  if negb ok then PDFMM_RAISE_ERROR InvalidDataType
  else match v with VNumber n => mret n | _ => mret ret end.


Definition GetRealStrict (v : PdfVariant) : result float :=
  '(ok, ret) ← TryGetRealStrict v;
  if negb ok then PDFMM_RAISE_ERROR InvalidDataType
  else match v with VReal d => mret d | _ => mret ret end.

Definition GetReference (v : PdfVariant) : result PdfReference :=
  '(ok, ret) ← TryGetReference v;
  if negb ok then PDFMM_RAISE_ERROR InvalidDataType else mret ret.

(** *** Equality

    Variants are objects with an address: [this == &rhs] compares the
    addresses of the two operands.  A [heap] gives the variant stored at each
    address. *)

Definition addr : Type := nat.
Definition heap : Type := addr → PdfVariant.

Definition operator_eq (h : heap) (this rhs : addr) : result bool :=
  if Nat.eqb this rhs then mret true
  else
    match h this with
    | VBool b =>
        '(ok, value) ← TryGetBool (h rhs);
        if (ok : bool) then mret (Bool.eqb b value) else mret false
    | VNumber n =>
        '(ok, value) ← TryGetNumber (h rhs);
        if (ok : bool) then mret (n =? value) else mret false
    | VReal d =>
        '(ok, value) ← TryGetRealStrict (h rhs);
        if (ok : bool) then mret (PrimFloat.eqb d value) else mret false
    | VReference r =>
        '(ok, value) ← TryGetReference (h rhs);
        if (ok : bool) then mret (PdfReference_eqb r value) else mret false
    | VString s =>
        '(ok, value) ← tryGetString (h rhs);
        match ok, value with
        | true, Some s' => PdfString_eq s s'
        | _, _ => mret false
        end
    | VName n =>
        '(ok, value) ← tryGetName (h rhs);
        match ok, value with
        | true, Some n' => PdfName_eq n n'
        | _, _ => mret false
        end
    | VArray a =>
        '(ok, value) ← TryGetArray (h rhs);
        match ok, value with
        | true, Some a' => PdfArray_eq a a'
        | _, _ => mret false
        end
    | VDictionary d =>
        '(ok, value) ← TryGetDictionary (h rhs);
        match ok, value with
        | true, Some d' => PdfDictionary_eq d d'
        | _, _ => mret false
        end
    | VRawData _ => PDFMM_RAISE_ERROR NotImplemented
    | VNull => mret (PdfDataType.eqb (m_DataType (h this)) PdfDataType.Null)
    | VUnknown => mret false
    end.

Definition operator_ne (h : heap) (this rhs : addr) : result bool :=
  if negb (Nat.eqb this rhs) then mret true
  else
    match h this with
    | VBool b =>
        '(ok, value) ← TryGetBool (h rhs);
        if (ok : bool) then mret (negb (Bool.eqb b value)) else mret true
    | VNumber n =>
        '(ok, value) ← TryGetNumber (h rhs);
        if (ok : bool) then mret (negb (n =? value)) else mret true
    | VReal d =>
        '(ok, value) ← TryGetRealStrict (h rhs);
        if (ok : bool) then mret (negb (PrimFloat.eqb d value)) else mret true
    | VReference r =>
        '(ok, value) ← TryGetReference (h rhs);
        if (ok : bool) then mret (negb (PdfReference_eqb r value)) else mret true
    | VString s =>
        '(ok, value) ← tryGetString (h rhs);
        match ok, value with
        | true, Some s' => PdfString_ne s s'
        | _, _ => mret true
        end
    | VName n =>
        '(ok, value) ← tryGetName (h rhs);
        match ok, value with
        | true, Some n' => PdfName_ne n n'
        | _, _ => mret true
        end
    | VArray a =>
        '(ok, value) ← TryGetArray (h rhs);
        match ok, value with
        | true, Some a' => PdfArray_ne a a'
        | _, _ => mret true
        end
    | VDictionary d =>
        '(ok, value) ← TryGetDictionary (h rhs);
        match ok, value with
        | true, Some d' => PdfDictionary_ne d d'
        | _, _ => mret true
        end
    | VRawData _ => PDFMM_RAISE_ERROR NotImplemented
    | VNull =>
        mret (negb (PdfDataType.eqb (m_DataType (h this)) PdfDataType.Null))
    | VUnknown => mret true
    end.

(** *** Serialization

    The output device is the string of bytes written so far.
    [device.Write(buf, len)] appends the first [len] bytes of [buf];
    [device.Print] appends the formatted text. *)

Definition c_str (s : string) : list ascii :=
  String.list_ascii_of_string s ++ [Ascii.zero].

Definition device_Write (device : string) (buf : list ascii) (len : nat)
  : string :=
  device +:+ String.string_of_list_ascii (take len buf).

(** [printf("%lld")] of a 64-bit integer *)
Definition print_int64 (n : Z) : string :=
  NilZero.string_of_int (Z.to_int n).

Definition device_Print (device : string) (text : string) : string :=
  device +:+ text.

(** [oss << std::fixed << x] in the classic locale, with the stream's
    default precision of six digits: the decimal expansion of the exact
    value of the double, rounded to six places (ties to even); an infinity
    and a NaN by name, after their sign. *)
Definition round_half_even (num den : Z) : Z :=
  let q := num / den in
  let r := num mod den in
  if 2 * r <? den then q
  else if den <? 2 * r then q + 1
  else if Z.even q then q else q + 1.

Definition zero_pad (width : nat) (s : string) : string :=
  String.string_of_list_ascii (replicate (width - String.length s) "0"%char) +:+ s.

Definition ostream_fixed (d : float) : string :=
  match Prim2SF d with
  | S754_nan => (if NaN_sign then "-" else "") +:+ "nan"
  | S754_infinity s => (if s then "-" else "") +:+ "inf"
  | S754_zero s => (if s then "-" else "") +:+ "0.000000"
  | S754_finite s m e =>
      let scaled :=
        if 0 <=? e then Z.pos m * 2 ^ e * 10 ^ 6
        else round_half_even (Z.pos m * 10 ^ 6) (2 ^ (- e)) in
      (if s then "-" else "")
      +:+ print_int64 (scaled / 10 ^ 6) +:+ "."
      +:+ zero_pad 6 (print_int64 (scaled mod 10 ^ 6))
  end.

(** [copy.find(c)]: the index of the first occurrence, [None] for [npos] *)
Fixpoint string_find (c : ascii) (s : string) : option nat :=
  match s with
  | EmptyString => None
  | String a s' =>
      if Ascii.eqb a c then Some 0%nat else S <$> string_find c s'
  end.

(** [str[i]] on the buffer of [c_str()]; a read outside it is a fault *)
Definition read (str : list ascii) (i : nat) : result ascii :=
  match str !! i with
  | Some c => mret c
  | None => Fault
  end.

(** [str[len - 1]] with [len] a [size_t]: at [len = 0] the index wraps
    around and the read is outside the buffer *)
Definition read_last (str : list ascii) (len : nat) : result ascii :=
  match len with
  | O => Fault
  | S i => read str i
  end.

(** [while (str[len - 1] == '0') len--;] *)
Fixpoint strip_zeros_loop (str : list ascii) (len : nat) : result nat :=
  match len with
  | O => Fault
  | S i =>
      c ← read str i;
      if Ascii.eqb c "0" then strip_zeros_loop str i else mret len
  end.

Definition is_compact (writeMode : Z) : bool :=
  Z.land writeMode Compact =? Compact.

(** [PdfVariant::Write].  The [InvalidHandle] check of a null [m_Data.Data]
    has no counterpart: payloads are never null in this model. *)
Definition Write (v : PdfVariant) (device : string) (writeMode : Z)
    (encrypt : option PdfEncrypt) : result string :=
  match v with
  | VBool b =>
      let device :=
        if is_compact writeMode then device_Write device (c_str " ") 1
        else device in
      if b then mret (device_Write device (c_str "true") 4)
      else mret (device_Write device (c_str "false") 5)
  | VNumber n =>
      let device :=
        if is_compact writeMode then device_Write device (c_str " ") 1
        else device in
      mret (device_Print device (print_int64 n))
  | VReal d =>
      let device :=
        if is_compact writeMode then device_Write device (c_str " ") 1
        else device in
      let copy := ostream_fixed d in
      let len := String.length copy in
      if is_compact writeMode && bool_decide (string_find "." copy ≠ None)
      then
        let str := c_str copy in
        len ← strip_zeros_loop str len;
        c ← read_last str len;
        let len := if Ascii.eqb c "." then (len - 1)%nat else len in
        if Nat.eqb len 0 then mret (device_Write device (c_str "0") 1)
        else mret (device_Write device (c_str copy) len)
      else mret (device_Write device (c_str copy) len)
  | VReference r => PdfReference_Write r device writeMode encrypt
  | VString _ | VName _ | VArray _ | VDictionary _ | VRawData _ =>
      PdfDataProvider_Write v device writeMode encrypt
  | VNull =>
      let device :=
        if is_compact writeMode then device_Write device (c_str " ") 1
        else device in
      mret (device_Print device "null")
  | VUnknown => PDFMM_RAISE_ERROR InvalidDataType
  end.

End Variant.

(** ** A sample environment

    One instance of the collaborators, on which the properties are
    exercised: [Compact = 1], the x86-64 result of an unrepresentable
    conversion, payloads compared element by element, references written as
    "<number> <generation> R". *)
Fixpoint structural_eqb (a b : PdfVariant) {struct a} : bool :=
  match a, b with
  | VUnknown, VUnknown => true
  | VBool x, VBool y => Bool.eqb x y
  | VNumber x, VNumber y => x =? y
  | VReal x, VReal y => PrimFloat.eqb x y
  | VString x, VString y => String.eqb x y
  | VName x, VName y => String.eqb x y
  | VArray xs, VArray ys =>
      (fix go (xs ys : list PdfVariant) : bool :=
         match xs, ys with
         | [], [] => true
         | x :: xs', y :: ys' => structural_eqb x y && go xs' ys'
         | _, _ => false
         end) xs ys
  | VDictionary xs, VDictionary ys =>
      (fix go (xs ys : list (PdfName * PdfVariant)) : bool :=
         match xs, ys with
         | [], [] => true
         | (k, x) :: xs', (k', y) :: ys' =>
             String.eqb k k' && structural_eqb x y && go xs' ys'
         | _, _ => false
         end) xs ys
  | VNull, VNull => true
  | VReference x, VReference y => PdfReference_eqb x y
  | VRawData x, VRawData y => String.eqb x y
  | _, _ => false
  end.

Definition sample_env : PdfEnv := {|
  PdfEncrypt := unit;
  Compact := 1;
  int64_of_unrepresentable := λ _, INT64_MIN;
  NaN_sign := false;
  PdfString_eq := λ a b, Ok (String.eqb a b);
  PdfString_ne := λ a b, Ok (negb (String.eqb a b));
  PdfName_eq := λ a b, Ok (String.eqb a b);
  PdfName_ne := λ a b, Ok (negb (String.eqb a b));
  PdfArray_eq := λ a b, Ok (structural_eqb (VArray a) (VArray b));
  PdfArray_ne := λ a b, Ok (negb (structural_eqb (VArray a) (VArray b)));
  PdfDictionary_eq := λ a b,
    Ok (structural_eqb (VDictionary a) (VDictionary b));
  PdfDictionary_ne := λ a b,
    Ok (negb (structural_eqb (VDictionary a) (VDictionary b)));
  PdfReference_Write := λ r device _ _,
    Ok (device +:+ print_int64 (Z.of_nat (ObjectNumber r)) +:+ " "
        +:+ print_int64 (Z.of_nat (GenerationNumber r)) +:+ " R");
  PdfDataProvider_Write := λ _ _ _ _, Raise NotImplemented;
|}.


(** ** The indirect object list

    [PdfIndirectObjectList.h] declares the store and its members; the bodies
    of its member functions are not part of the sources and follow
    sections 3, 4.3 and 4.3.1 of the specification. *)

(** Modelled from the spec: [PdfObject], whose class is not part of the
    sources.  "Object: owns one Value and zero-or-one Stream". *)
Record PdfObject := {
  m_Variant : PdfVariant;
  m_Stream : option PdfData;
}.

(** The private members of [PdfIndirectObjectList]: the objects keyed by
    their id, the high-water mark, the pool of free ids, the numbers never
    to be reused. *)
Record PdfIndirectObjectList := {
  m_CanReuseObjectNumbers : bool;
  m_Objects : gmap PdfReference PdfObject;
  m_ObjectCount : nat;
  m_FreeObjects : list PdfReference;
  m_UnavailableObjects : gset nat;
}.

(** Modelled from the spec: the constructor of [PdfIndirectObjectList].
    The empty store has no object, [objectCount] zero and an empty free pool
    ("empty initially"); reuse is enabled (the header: "By default object
    numbers re-use is enabled"). *)
Definition empty_store : PdfIndirectObjectList := {|
  m_CanReuseObjectNumbers := true;
  m_Objects := ∅;
  m_ObjectCount := 0;
  m_FreeObjects := [];
  m_UnavailableObjects := ∅;
|}.

(** Modelled from the spec: [GetSize], the number of live objects. *)
Definition GetSize (s : PdfIndirectObjectList) : nat := size (m_Objects s).

(** Modelled from the spec: [GetObject].  "lookup; no side effects". *)
Definition GetObject (s : PdfIndirectObjectList) (ref : PdfReference)
  : option PdfObject :=
  m_Objects s !! ref.

(** Modelled from the spec: [MustGetObject].  "same lookup, raises
    [MissingObject] if absent" (the header names the code [NoObject]). *)
Definition MustGetObject (s : PdfIndirectObjectList) (ref : PdfReference)
  : result PdfObject :=
  match GetObject s ref with
  | Some obj => mret obj
  | None => PDFMM_RAISE_ERROR NoObject
  end.

(** Modelled from the spec: [SetCanReuseObjectNumbers].  "Reuse can be
    globally disabled, which also clears the existing free pool
    immediately." *)
Definition SetCanReuseObjectNumbers (canReuseObjectNumbers : bool)
    (s : PdfIndirectObjectList) : PdfIndirectObjectList :=
  {| m_CanReuseObjectNumbers := canReuseObjectNumbers;
     m_Objects := m_Objects s;
     m_ObjectCount := m_ObjectCount s;
     m_FreeObjects := if canReuseObjectNumbers then m_FreeObjects s else [];
     m_UnavailableObjects := m_UnavailableObjects s |}.

(** Modelled from the spec: [AddFreeObject].  "a free pool (deduplicated,
    insertion order not significant) holds ids available for reuse". *)
Definition AddFreeObject (ref : PdfReference) (s : PdfIndirectObjectList)
  : PdfIndirectObjectList :=
  {| m_CanReuseObjectNumbers := m_CanReuseObjectNumbers s;
     m_Objects := m_Objects s;
     m_ObjectCount := m_ObjectCount s;
     m_FreeObjects :=
       if bool_decide (ref ∈ m_FreeObjects s) then m_FreeObjects s
       else m_FreeObjects s ++ [ref];
     m_UnavailableObjects := m_UnavailableObjects s |}.

(** Modelled from the spec: [TryIncrementObjectCount].  "[CreateObject]
    ... increments [objectCount] if the allocated number is new"; the
    header: "Set the object count so that the object described this
    reference is contained in the object count". *)
Definition TryIncrementObjectCount (ref : PdfReference)
    (s : PdfIndirectObjectList) : PdfIndirectObjectList :=
  {| m_CanReuseObjectNumbers := m_CanReuseObjectNumbers s;
     m_Objects := m_Objects s;
     m_ObjectCount := Nat.max (m_ObjectCount s) (ObjectNumber ref);
     m_FreeObjects := m_FreeObjects s;
     m_UnavailableObjects := m_UnavailableObjects s |}.

(** Modelled from the spec: [addNewObject].  "inserts a new Object holding
    [value], increments [objectCount] if the allocated number is new". *)
Definition addNewObject (ref : PdfReference) (obj : PdfObject)
    (s : PdfIndirectObjectList) : PdfIndirectObjectList :=
  TryIncrementObjectCount ref
    {| m_CanReuseObjectNumbers := m_CanReuseObjectNumbers s;
       m_Objects := <[ref := obj]> (m_Objects s);
       m_ObjectCount := m_ObjectCount s;
       m_FreeObjects := m_FreeObjects s;
       m_UnavailableObjects := m_UnavailableObjects s |}.

(** Modelled from the spec: [getNextFreeObject].  "Allocating a new id for
    [CreateObject] first pops from the free pool (if reuse is enabled and
    the pool is non-empty); otherwise it increments [objectCount] and uses
    generation 0." *)
Definition getNextFreeObject (s : PdfIndirectObjectList)
  : PdfReference * PdfIndirectObjectList :=
  match m_CanReuseObjectNumbers s, m_FreeObjects s with
  | true, freeObjectRef :: rest =>
      (freeObjectRef,
       {| m_CanReuseObjectNumbers := m_CanReuseObjectNumbers s;
          m_Objects := m_Objects s;
          m_ObjectCount := m_ObjectCount s;
          m_FreeObjects := rest;
          m_UnavailableObjects := m_UnavailableObjects s |})
  | _, _ =>
      let nextObjectNum := S (m_ObjectCount s) in
      ((nextObjectNum, 0%nat),
       {| m_CanReuseObjectNumbers := m_CanReuseObjectNumbers s;
          m_Objects := m_Objects s;
          m_ObjectCount := nextObjectNum;
          m_FreeObjects := m_FreeObjects s;
          m_UnavailableObjects := m_UnavailableObjects s |})
  end.

(** Modelled from the spec: [CreateObject].  "allocates the next available
    id, inserts a new Object holding [value], ..., returns the Object"; the
    new object is identified by its id. *)
Definition CreateObject (variant : PdfVariant) (s : PdfIndirectObjectList)
  : PdfReference * PdfIndirectObjectList :=
  let '(ref, s) := getNextFreeObject s in
  (ref, addNewObject ref {| m_Variant := variant; m_Stream := None |} s).

Section FreeObjects.
(** The maximum allowed generation value; the spec names it without giving
    its number. *)
Variable maxGeneration : nat.

(** Modelled from the spec: [TryAddFreeObject].  "adds it only if its
    generation is below the maximum allowed generation value, returning
    whether it was accepted." *)
Definition TryAddFreeObject (ref : PdfReference) (s : PdfIndirectObjectList)
  : bool * PdfIndirectObjectList :=
  if (GenerationNumber ref <? maxGeneration)%nat
  then (true, AddFreeObject ref s)
  else (false, s).

(** Modelled from the spec: [SafeAddFreeObject].  "adds the next
    generation of [id] (generation+1) applying the same ceiling check,
    returning the generation actually added or a sentinel if rejected."  The
    ceiling check is the one of [TryAddFreeObject], on the generation of
    [id] itself: section 4.3 has a removed id pushed "unless its generation
    is already at the maximum allowed value", and section 8 has a number
    retired after "maxGeneration+1" rounds of removal and creation, so an
    id is live at every generation up to the maximum.  The sentinel is
    [None]. *)
Definition SafeAddFreeObject (ref : PdfReference) (s : PdfIndirectObjectList)
  : option nat * PdfIndirectObjectList :=
  if (GenerationNumber ref <? maxGeneration)%nat
  then
    let next := (ObjectNumber ref, S (GenerationNumber ref)) in
    (Some (GenerationNumber next), AddFreeObject next s)
  else (None, s).

(** Modelled from the spec: [RemoveObject].  "detaches and returns
    ownership of the Object to the caller if present; if [markAsFree], the
    id is pushed onto the free pool (see 4.3.1) unless its generation is
    already at the maximum allowed value, in which case it is permanently
    retired and never reused".  The id that enters the pool carries the
    next generation (section 8: the number of a removed (1,0) is reused as
    (1,1)). *)
Definition RemoveObject (ref : PdfReference) (markAsFree : bool)
    (s : PdfIndirectObjectList) : option PdfObject * PdfIndirectObjectList :=
  match m_Objects s !! ref with
  | None => (None, s)
  | Some obj =>
      let s := if markAsFree then (SafeAddFreeObject ref s).2 else s in
      (Some obj,
       {| m_CanReuseObjectNumbers := m_CanReuseObjectNumbers s;
          m_Objects := delete ref (m_Objects s);
          m_ObjectCount := m_ObjectCount s;
          m_FreeObjects := m_FreeObjects s;
          m_UnavailableObjects := m_UnavailableObjects s |})
  end.

(** Clients of the store: a run is a sequence of calls; it yields the final
    store and the ids handed out by [CreateObject], in order. *)
Inductive call :=
| CallCreateObject (variant : PdfVariant)
| CallRemoveObject (ref : PdfReference) (markAsFree : bool)
| CallSetCanReuseObjectNumbers (canReuseObjectNumbers : bool).

Definition step (c : call) (s : PdfIndirectObjectList)
  : list PdfReference * PdfIndirectObjectList :=
  match c with
  | CallCreateObject variant =>
      let '(ref, s) := CreateObject variant s in ([ref], s)
  | CallRemoveObject ref markAsFree => ([], (RemoveObject ref markAsFree s).2)
  | CallSetCanReuseObjectNumbers b => ([], SetCanReuseObjectNumbers b s)
  end.

Fixpoint run (cs : list call) (s : PdfIndirectObjectList)
  : list PdfReference * PdfIndirectObjectList :=
  match cs with
  | [] => ([], s)
  | c :: cs' =>
      let '(ids, s) := step c s in
      let '(ids', s) := run cs' s in
      (ids ++ ids', s)
  end.

End FreeObjects.

(** A client that removes the object of number 1 and creates a new one,
    [rounds] times over, beginning with the object of generation [gen]. *)
Fixpoint churn (gen rounds : nat) : list call :=
  match rounds with
  | O => []
  | S rounds =>
      CallRemoveObject (1, gen)%nat true :: CallCreateObject VNull
      :: churn (S gen) rounds
  end.

(** *** Garbage collection *)

(** Modelled from the spec: the traversal of one value inside
    [GetObjectDependencies].  "Marking recursively follows every Reference
    found inside Array/Dictionary payloads, visiting each reachable ObjectId
    exactly once (cycle-safe via a visited set)."  [follow] continues in the
    object a new reference points to. *)
Fixpoint dependencies_in
    (follow : PdfReference → gset PdfReference → gset PdfReference)
    (v : PdfVariant) (visited : gset PdfReference) {struct v}
  : gset PdfReference :=
  match v with
  | VReference ref =>
      if bool_decide (ref ∈ visited) then visited
      else follow ref ({[ref]} ∪ visited)
  | VArray a =>
      fold_left (λ acc x, dependencies_in follow x acc) a visited
  | VDictionary d =>
      fold_left (λ acc kv, let '(_, x) := kv in dependencies_in follow x acc)
        d visited
  | _ => visited
  end.

(** Modelled from the spec: [GetObjectDependencies].  The recursion into a
    referenced object happens at most once per live object; [depth] bounds
    the number of nested descents, and a reference that is not live ("a
    Reference pointing to a nonexistent id") is recorded and not
    followed. *)
Fixpoint GetObjectDependencies (objects : gmap PdfReference PdfObject)
    (depth : nat) (v : PdfVariant) (visited : gset PdfReference)
  : gset PdfReference :=
  match depth with
  | O => dependencies_in (λ _ visited, visited) v visited
  | S depth' =>
      dependencies_in
        (λ ref visited,
           match objects !! ref with
           | Some obj =>
               GetObjectDependencies objects depth' (m_Variant obj) visited
           | None => visited
           end)
        v visited
  end.

(** Modelled from the spec: [CollectGarbage].  "mark-and-sweep over the
    reference graph rooted at [rootValue]"; "Sweep: every live Object whose
    id was not marked and is not present in [notDelete] is removed and
    destroyed; marked and [notDelete] objects survive."  The depth given to
    the marking is the number of live objects. *)
Definition CollectGarbage (rootValue : PdfVariant)
    (notDelete : gset PdfReference) (s : PdfIndirectObjectList)
  : PdfIndirectObjectList :=
  let marked :=
    GetObjectDependencies (m_Objects s) (size (m_Objects s)) rootValue ∅ in
  {| m_CanReuseObjectNumbers := m_CanReuseObjectNumbers s;
     m_Objects :=
       filter (λ kv, kv.1 ∈ marked ∨ kv.1 ∈ notDelete) (m_Objects s);
     m_ObjectCount := m_ObjectCount s;
     m_FreeObjects := m_FreeObjects s;
     m_UnavailableObjects := m_UnavailableObjects s |}.

(** Reachability in the reference graph, as the spec words it: the
    references nested in a value, and the ids reached from a root value by
    following references through live objects. *)
Fixpoint references (v : PdfVariant) : list PdfReference :=
  match v with
  | VReference ref => [ref]
  | VArray a => flat_map references a
  | VDictionary d => flat_map (λ kv, let '(_, x) := kv in references x) d
  | _ => []
  end.

Inductive reachable (objects : gmap PdfReference PdfObject)
    (rootValue : PdfVariant) : PdfReference → Prop :=
| reachable_root ref :
    ref ∈ references rootValue → reachable objects rootValue ref
| reachable_step ref obj ref' :
    reachable objects rootValue ref →
    objects !! ref = Some obj →
    ref' ∈ references (m_Variant obj) →
    reachable objects rootValue ref'.

(** The store of section 8: object 1 is a dictionary whose "Kids" array
    refers to object 2; object 3 is referenced by nobody. *)
Definition new_object (v : PdfVariant) : PdfObject :=
  {| m_Variant := v; m_Stream := None |}.

Definition kids_store : PdfIndirectObjectList :=
  {| m_CanReuseObjectNumbers := true;
     m_Objects :=
       <[(1, 0)%nat :=
           new_object
             (VDictionary [("Kids"%string, VArray [VReference (2, 0)%nat])])]>
         (<[(2, 0)%nat := new_object VNull]>
            (<[(3, 0)%nat := new_object VNull]> ∅));
     m_ObjectCount := 3;
     m_FreeObjects := [];
     m_UnavailableObjects := ∅ |}.

(** ** The serialization rules in the words of the specification

    "Real→fixed-point with, in compact mode, trailing zeros and trailing
    decimal point stripped (a value that reduces to nothing after stripping
    prints as "0")". *)

Fixpoint drop_zeros (l : list ascii) : list ascii :=
  match l with
  | c :: l' => if Ascii.eqb c "0" then drop_zeros l' else l
  | [] => []
  end.

Definition strip_trailing_zeros (l : list ascii) : list ascii :=
  reverse (drop_zeros (reverse l)).

Definition strip_trailing_dot (l : list ascii) : list ascii :=
  match reverse l with
  | c :: l' => if Ascii.eqb c "." then reverse l' else l
  | [] => []
  end.

Definition compact_real (copy : string) : string :=
  if bool_decide (string_find "." copy ≠ None) then
    let stripped :=
      strip_trailing_dot
        (strip_trailing_zeros (String.list_ascii_of_string copy)) in
    match stripped with
    | [] => "0"
    | _ => String.string_of_list_ascii stripped
    end
  else copy.

(** The token of a Bool, Integer, Real or Null value. *)
Definition literal_token `{env : PdfEnv} (compact : bool) (v : PdfVariant)
  : option string :=
  match v with
  | VBool true => Some "true"
  | VBool false => Some "false"
  | VNumber n => Some (print_int64 n)
  | VReal d =>
      Some (if compact then compact_real (ostream_fixed d)
            else ostream_fixed d)
  | VNull => Some "null"
  | _ => None
  end.

(** The leading separator of compact mode. *)
Definition leading_space (compact : bool) : string :=
  if compact then " " else "".

(** ** Vocabulary of the properties *)

(** *** Sample objects *)

(** Two objects: a Real 1.0 at address 0 and an Integer 1 at address 1. *)
Definition one_real_one_number : heap :=
  λ a, match a with O => VReal 1%float | _ => VNumber 1 end.

(** Two objects holding the Integers 1 and 2. *)
Definition one_and_two : heap :=
  λ a, match a with O => VNumber 1 | _ => VNumber 2 end.

(** One RawData object. *)
Definition raw_objects : heap := λ _, VRawData "x".

(** *** Contracts of the accessors *)

(** An accessor never raises: on every variant it returns. *)
Definition never_raises {T} (accessor : PdfVariant → result T) : Prop :=
  ∀ v, ∃ r, accessor v = Ok r.

(** The contract of a Try accessor: [family] tells, for the variants whose
    tag belongs to the accessor's family, the payload in the type of the
    output parameter; the other variants leave [default] there. *)
Definition try_contract {T} (accessor : PdfVariant → result (bool * T))
    (family : PdfVariant → option T) (default : T) : Prop :=
  ∀ v, accessor v
       = Ok (match family v with
             | Some payload => (true, payload)
             | None => (false, default)
             end).

(** *** Tokens: non-empty, and not starting with a space *)

Definition token_ok (s : string) : Prop :=
  match s with
  | String c _ => c ≠ " "%char
  | EmptyString => False
  end.

(** The Bool, Integer, Real and Null values. *)
Definition is_literal (v : PdfVariant) : bool :=
  IsBool v || IsNumber v || IsRealStrict v || IsNull v.

(** *** Invariant of the store *)

Definition live (s : PdfIndirectObjectList) (ref : PdfReference) : Prop :=
  is_Some (m_Objects s !! ref).

(** The invariant of the store: ids stay below the high-water mark, and an
    object number occurs at most once among the live objects and the free
    pool together. *)
Record store_inv (s : PdfIndirectObjectList) : Prop := {
  inv_live_bound :
    ∀ ref, live s ref → (ObjectNumber ref ≤ m_ObjectCount s)%nat;
  inv_free_bound :
    ∀ ref, ref ∈ m_FreeObjects s → (ObjectNumber ref ≤ m_ObjectCount s)%nat;
  inv_live_unique :
    ∀ r1 r2, live s r1 → live s r2 →
             ObjectNumber r1 = ObjectNumber r2 → r1 = r2;
  inv_free_not_live :
    ∀ r1 r2, r1 ∈ m_FreeObjects s → live s r2 →
             ObjectNumber r1 ≠ ObjectNumber r2;
  inv_free_nodup : NoDup (ObjectNumber <$> m_FreeObjects s);
}.

(** An object number is retired when it lies below the high-water mark and
    neither a live object nor the free pool holds it. *)
Definition retired (num : nat) (s : PdfIndirectObjectList) : Prop :=
  (num ≤ m_ObjectCount s)%nat
  ∧ (∀ ref, live s ref → ObjectNumber ref ≠ num)
  ∧ (∀ ref, ref ∈ m_FreeObjects s → ObjectNumber ref ≠ num).

(** *** The marking as a traversal of the reference graph *)

(** One step of the marking: a reference already visited is skipped, a new
    one is recorded and followed. *)
Definition visit_ref
    (follow : PdfReference → gset PdfReference → gset PdfReference)
    (visited : gset PdfReference) (ref : PdfReference) : gset PdfReference :=
  if bool_decide (ref ∈ visited) then visited
  else follow ref ({[ref]} ∪ visited).

(** An edge of the reference graph: a live object whose value nests a
    reference. *)
Definition edge (objects : gmap PdfReference PdfObject)
    (x y : PdfReference) : Prop :=
  ∃ obj, objects !! x = Some obj ∧ y ∈ references (m_Variant obj).

Definition follow_at (objects : gmap PdfReference PdfObject) (depth : nat)
  : PdfReference → gset PdfReference → gset PdfReference :=
  match depth with
  | O => λ _ visited, visited
  | S depth' =>
      λ ref visited,
        match objects !! ref with
        | Some obj =>
            GetObjectDependencies objects depth' (m_Variant obj) visited
        | None => visited
        end
  end.

(** With enough depth for the live objects not yet visited, the marking
    contains the references of the list and is closed under the edges that
    start at a newly marked id. *)
Definition closed_from (objects : gmap PdfReference PdfObject)
    (visited marked : gset PdfReference) : Prop :=
  ∀ x y, x ∈ marked → x ∉ visited → edge objects x y → y ∈ marked.

Definition complete_at (objects : gmap PdfReference PdfObject)
    (depth : nat) : Prop :=
  ∀ (l : list PdfReference) (visited : gset PdfReference),
    (size (dom objects ∖ visited) ≤ depth)%nat →
    let marked := fold_left (visit_ref (follow_at objects depth)) l visited in
    visited ⊆ marked ∧ (∀ r, r ∈ l → r ∈ marked)
    ∧ closed_from objects visited marked.

(** ** PdfVariant: the remaining accessors, the mutators, the names *)

Section VariantMutators.
Context `{env : PdfEnv}.

(** The direct accessors of the payload classes dereference the pointer the
    private accessor hands out. *)
Definition GetString (v : PdfVariant) : result PdfString :=
  '(ok, ret) ← tryGetString v;
  if negb ok then PDFMM_RAISE_ERROR InvalidDataType
  else match ret with Some s => mret s | None => Fault end.

Definition GetName (v : PdfVariant) : result PdfName :=
  '(ok, ret) ← tryGetName v;
  if negb ok then PDFMM_RAISE_ERROR InvalidDataType
  else match ret with Some n => mret n | None => Fault end.



(** *** Mutators

    A mutator checks the tag and then overwrites the member of the union
    that the tag selects; it returns the variant as it is afterwards. *)

Definition SetBool (value : bool) (v : PdfVariant) : result PdfVariant :=
  if negb (PdfDataType.eqb (m_DataType v) PdfDataType.Bool)
  then PDFMM_RAISE_ERROR InvalidDataType
  else mret (VBool value).

Definition SetNumber (value : Z) (v : PdfVariant) : result PdfVariant :=
  if negb (PdfDataType.eqb (m_DataType v) PdfDataType.Number
           || PdfDataType.eqb (m_DataType v) PdfDataType.Real)
  then PDFMM_RAISE_ERROR InvalidDataType
  else if PdfDataType.eqb (m_DataType v) PdfDataType.Real
       then mret (VReal (static_cast_double value))
       else mret (VNumber value).

Definition SetReal (value : float) (v : PdfVariant) : result PdfVariant :=
  if negb (PdfDataType.eqb (m_DataType v) PdfDataType.Real
           || PdfDataType.eqb (m_DataType v) PdfDataType.Number)
  then PDFMM_RAISE_ERROR InvalidDataType
  else if PdfDataType.eqb (m_DataType v) PdfDataType.Number
       then mret (VNumber (static_cast_int64_round value))
       else mret (VReal value).

Definition SetName (name : PdfName) (v : PdfVariant) : result PdfVariant :=
  if negb (PdfDataType.eqb (m_DataType v) PdfDataType.Name)
  then PDFMM_RAISE_ERROR InvalidDataType
  else mret (VName name).

Definition SetString (str : PdfString) (v : PdfVariant) : result PdfVariant :=
  if negb (PdfDataType.eqb (m_DataType v) PdfDataType.String)
  then PDFMM_RAISE_ERROR InvalidDataType
  else mret (VString str).

Definition SetReference (ref : PdfReference) (v : PdfVariant)
  : result PdfVariant :=
  if negb (PdfDataType.eqb (m_DataType v) PdfDataType.Reference)
  then PDFMM_RAISE_ERROR InvalidDataType
  else mret (VReference ref).

(** [ToString] writes into a fresh stream and returns its content. *)
Definition ToString (v : PdfVariant) (writeMode : Z) : result string :=
  Write v "" writeMode None.

End VariantMutators.

(** [GetDataTypeString]; the default branch serves values outside the
    enumeration, which the type of tags does not contain. *)
Definition GetDataTypeString (v : PdfVariant) : string :=
  match m_DataType v with
  | PdfDataType.Bool => "Bool"
  | PdfDataType.Number => "Number"
  | PdfDataType.Real => "Real"
  | PdfDataType.String => "String"
  | PdfDataType.Name => "Name"
  | PdfDataType.Array => "Array"
  | PdfDataType.Dictionary => "Dictionary"
  | PdfDataType.Null => "Null"
  | PdfDataType.Reference => "Reference"
  | PdfDataType.RawData => "RawData"
  | PdfDataType.Unknown => "Unknown"
  end.

(** The ten tag predicates, in the order of the source. *)
Definition tag_predicates (v : PdfVariant) : list bool :=
  [IsBool v; IsNumber v; IsRealStrict v; IsString v; IsName v; IsArray v;
   IsDictionary v; IsRawData v; IsNull v; IsReference v].

(** The scalar tags, whose payload [operator==] compares itself. *)
Definition is_scalar (v : PdfVariant) : bool :=
  IsBool v || IsNumber v || IsRealStrict v || IsReference v.

(** *** Contracts of the direct accessors and of the mutators *)


(** A mutator succeeds on the variants of its family, raises
    [InvalidDataType] on the others, and leaves the tag as it was. *)
Definition set_contract {A} (mutator : A → PdfVariant → result PdfVariant)
    (family : PdfVariant → bool) : Prop :=
  ∀ x v,
    if family v
    then ∃ v', mutator x v = Ok v' ∧ m_DataType v' = m_DataType v
    else mutator x v = Raise InvalidDataType.

(** A double that is a NaN. *)
Definition is_NaN (d : float) : bool :=
  match Prim2SF d with
  | S754_nan => true
  | _ => false
  end.

(** A Null at address 0 and an Integer 1 elsewhere. *)
Definition null_and_number : heap :=
  λ a, match a with O => VNull | _ => VNumber 1 end.

(** The Integer 7 at every address. *)
Definition sevens : heap := λ _, VNumber 7.

(** ** PdfContentsTokenizer: inline image data

    [PdfContentsTokenizer::tryReadInlineImgData] scans the device for the
    end of an inline image.  The device is the list of characters still to
    be read ([TryGetChar] takes the first); [m_buffer] is a resizable array
    of characters. *)

(** [PdfTokenizer::IsWhitespace] is not part of the sources: a parameter. *)
Class TokenizerEnv := {
  IsWhitespace : ascii → bool;
}.

Record PdfContentsTokenizer := {
  m_buffer : list ascii;
  m_device : list ascii;
  m_readingInlineImgData : bool;
}.

Inductive ReadEIStatus :=
| ReadE
| ReadI
| ReadWhiteSpace.

(** [m_buffer.Resize(size)]: the content is kept; the characters added are
    written before they are read (NUL stands for them). *)
Definition Resize (size : nat) (buffer : list ascii) : list ascii :=
  take size buffer ++ replicate (size - length buffer) Ascii.zero.

(** [readCount] is an [unsigned], 32 bits wide: [readCount++] and
    [readCount - 2] wrap around.  The size of the buffer is a [size_t],
    64 bits wide. *)
Definition unsigned (z : Z) : Z := z mod 2 ^ 32.
Definition size_t (z : Z) : Z := z mod 2 ^ 64.

(** [m_buffer.GetBuffer()[i] = ch]; a write outside the array is a fault. *)
Definition store (buffer : list ascii) (i : Z) (ch : ascii)
  : result (list ascii) :=
  if (0 <=? i) && (i <? Z.of_nat (length buffer))
  then mret (<[Z.to_nat i := ch]> buffer)
  else Fault.

(** [string_view(m_buffer.GetBuffer(), readCount - 2)] turned into a
    [PdfData]; a view that is longer than the array is a fault. *)
Definition view_before_EI (buffer : list ascii) (readCount : Z)
  : result PdfData :=
  let len := unsigned (readCount - 2) in
  if len <=? Z.of_nat (length buffer)
  then mret (String.string_of_list_ascii (take (Z.to_nat len) buffer))
  else Fault.

Section InlineImage.
Context `{tok : TokenizerEnv}.

(** The loop [while (m_device->TryGetChar(ch))]: it yields the data when
    the loop returns true and [None] when the device runs dry, with the
    device and the buffer as they are then. *)
Fixpoint read_until_EI (device buffer : list ascii) (status : ReadEIStatus)
    (readCount : Z) {struct device}
  : result (option PdfData * list ascii * list ascii) :=
  match device with
  | [] => mret (None, [], buffer)
  | ch :: device =>
      let continue (status : ReadEIStatus) :=
        let buffer :=
          if readCount =? Z.of_nat (length buffer)
          then Resize (Z.to_nat (size_t (Z.of_nat (length buffer) * 2))) buffer
          else buffer in
        buffer ← store buffer readCount ch;
        read_until_EI device buffer status (unsigned (readCount + 1)) in
      match status with
      | ReadE => continue (if Ascii.eqb ch "E" then ReadI else ReadE)
      | ReadI => continue (if Ascii.eqb ch "I" then ReadWhiteSpace else ReadE)
      | ReadWhiteSpace =>
          if IsWhitespace ch then
            data ← view_before_EI buffer readCount;
            mret (Some data, device, buffer)
          else continue ReadE
      end
  end.

(** [tryReadInlineImgData(data)]: the flag, the output parameter, and the
    tokenizer afterwards. *)
Definition tryReadInlineImgData (t : PdfContentsTokenizer) (data : PdfData)
  : result (bool * PdfData * PdfContentsTokenizer) :=
  match m_device t with
  | [] => mret (false, data, t)
  | _ :: device =>
      '(found, device, buffer) ←
         read_until_EI device (m_buffer t) ReadE 0;
      let t := {| m_buffer := buffer; m_device := device;
                  m_readingInlineImgData := m_readingInlineImgData t |} in
      match found with
      | Some data => mret (true, data, t)
      | None => mret (false, data, t)
      end
  end.

(** The automaton of the loop without its buffer: [consumed] are the
    characters read so far. *)
Fixpoint scan_EI (device : list ascii) (status : ReadEIStatus)
    (consumed : list ascii) : option (list ascii) * list ascii :=
  match device with
  | [] => (None, [])
  | ch :: device =>
      match status with
      | ReadE =>
          scan_EI device (if Ascii.eqb ch "E" then ReadI else ReadE)
            (consumed ++ [ch])
      | ReadI =>
          scan_EI device (if Ascii.eqb ch "I" then ReadWhiteSpace else ReadE)
            (consumed ++ [ch])
      | ReadWhiteSpace =>
          if IsWhitespace ch
          then (Some (take (length consumed - 2) consumed), device)
          else scan_EI device ReadE (consumed ++ [ch])
      end
  end.

(** What each state has seen. *)
Definition status_seen (status : ReadEIStatus) (consumed : list ascii)
  : Prop :=
  match status with
  | ReadE => True
  | ReadI => ∃ x, consumed = x ++ ["E"%char]
  | ReadWhiteSpace => ∃ x, consumed = x ++ ["E"%char; "I"%char]
  end.

End InlineImage.

(** A sample tokenizer environment: the six white-space characters of
    PDF. *)
Definition sample_tok : TokenizerEnv := {|
  IsWhitespace := λ c,
    match Ascii.nat_of_ascii c with
    | 0%nat | 9%nat | 10%nat | 12%nat | 13%nat | 32%nat => true
    | _ => false
    end;
|}.

Definition sample_tokenizer (input : string) : PdfContentsTokenizer :=
  {| m_buffer := replicate 4 Ascii.zero;
     m_device := String.list_ascii_of_string input;
     m_readingInlineImgData := true |}.

(** A rendering does not begin with the decimal point. *)
Definition no_leading_dot (s : string) : Prop :=
  match s with
  | String c _ => c ≠ "."%char
  | EmptyString => False
  end.



(** ** PdfContentsTokenizer: reading the next content

    [TryReadNext], [tryReadNext] and [tryReadInlineImgDict] sit on top of
    [m_tokenizer], a [PdfTokenizer] that shares [m_buffer] and reads from
    [m_device].  A [keyword] is a view of characters; the model keeps the
    characters it showed when it was returned. *)

Module EPdfContentsType.
Inductive t :=
| Unknown
| Keyword
| Variant
| ImageDictionary
| ImageData.
End EPdfContentsType.

(** Of [EPdfPostScriptTokenType] the source names [Keyword] and [Variant];
    [Other] stands for the enumerators that fall to [default:]. *)
Module EPdfPostScriptTokenType.
Inductive t :=
| Keyword
| Variant
| Other.
End EPdfPostScriptTokenType.

(** [PdfTokenizer] and [PdfDictionary::AddKey] are not part of the sources:
    parameters.  The tokenizer sees the device and the buffer it shares; it
    returns its flag, its output parameters, and the device and buffer
    afterwards, or throws. *)
Class PdfTokenizerEnv := {
  tokenizer_exception : Type;
  PdfTokenizer_TryReadNext :
    list ascii → list ascii → string → PdfVariant →
    tokenizer_exception
    + (bool * EPdfPostScriptTokenType.t * string * PdfVariant
       * list ascii * list ascii);
  PdfTokenizer_TryReadNextVariant :
    list ascii → list ascii → PdfVariant →
    tokenizer_exception + (bool * PdfVariant * list ascii * list ascii);
  PdfDictionary_AddKey : PdfDictionary → PdfName → PdfVariant → PdfDictionary;
}.

(** What a call can throw: the exceptions that the code modelled here
    throws itself ([PdfError] with [InvalidEnumValue] in [tryReadNext], a
    [PdfError] of [PdfVariant], the [runtime_error] of
    [tryReadInlineImgDict]), and whatever is thrown inside [m_tokenizer],
    of whichever class (a [runtime_error] of its own included), which passes
    through unchanged as [from_tokenizer]. *)
Inductive thrown `{PdfTokenizerEnv} :=
| PdfError_InvalidEnumValue
| PdfError_code (e : PdfErrorCode)
| runtime_error (what : string)
| from_tokenizer (e : tokenizer_exception).

(** A call returns, throws, leaves the defined behaviour of C++, or is
    still running when the fuel of the model is spent. *)
Inductive outcome `{PdfTokenizerEnv} (A : Type) :=
| Returns (a : A)
| Throws (e : thrown)
| Undefined
| Unfinished.
Arguments Returns {_ A} a.
Arguments Throws {_ A} e.
Arguments Undefined {_ A}.
Arguments Unfinished {_ A}.

#[global] Instance outcome_ret `{PdfTokenizerEnv} : MRet outcome :=
  λ A a, Returns a.

#[global] Instance outcome_bind `{PdfTokenizerEnv} : MBind outcome :=
  λ A B k m,
  match m with
  | Returns a => k a
  | Throws e => Throws e
  | Undefined => Undefined
  | Unfinished => Unfinished
  end.

Definition of_result `{PdfTokenizerEnv} {A} (r : result A) : outcome A :=
  match r with
  | Ok a => Returns a
  | Raise e => Throws (PdfError_code e)
  | Fault => Undefined
  end.

Definition of_tokenizer `{PdfTokenizerEnv} {A} (r : tokenizer_exception + A)
  : outcome A :=
  match r with
  | inl e => Throws (from_tokenizer e)
  | inr a => Returns a
  end.

Definition with_input (t : PdfContentsTokenizer) (device buffer : list ascii)
  : PdfContentsTokenizer :=
  {| m_buffer := buffer; m_device := device;
     m_readingInlineImgData := m_readingInlineImgData t |}.

Definition with_readingInlineImgData (t : PdfContentsTokenizer) (b : bool)
  : PdfContentsTokenizer :=
  {| m_buffer := m_buffer t; m_device := m_device t;
     m_readingInlineImgData := b |}.

Section ContentsTokenizer.
Context `{tok : TokenizerEnv} `{ptok : PdfTokenizerEnv}.

(** [tryReadNext(type, keyword, variant)]; [type] is assigned on every
    path that returns. *)
Definition tryReadNext (t : PdfContentsTokenizer) (keyword : string)
    (variant : PdfVariant)
  : outcome (bool * EPdfContentsType.t * string * PdfVariant
             * PdfContentsTokenizer) :=
  '(gotToken, psTokenType, keyword, variant, device, buffer) ←
     of_tokenizer
       (PdfTokenizer_TryReadNext (m_device t) (m_buffer t) keyword variant);
  let t := with_input t device buffer in
  if negb gotToken
  then mret (false, EPdfContentsType.Unknown, keyword, variant, t)
  else
    match psTokenType with
    | EPdfPostScriptTokenType.Keyword =>
        mret (true, EPdfContentsType.Keyword, keyword, variant, t)
    | EPdfPostScriptTokenType.Variant =>
        mret (true, EPdfContentsType.Variant, keyword, variant, t)
    | EPdfPostScriptTokenType.Other =>
        Throws PdfError_InvalidEnumValue
    end.

Definition TryReadNextVariant (t : PdfContentsTokenizer) (variant : PdfVariant)
  : outcome (bool * PdfVariant * PdfContentsTokenizer) :=
  '(ok, variant, device, buffer) ←
     of_tokenizer
       (PdfTokenizer_TryReadNextVariant (m_device t) (m_buffer t) variant);
  mret (ok, variant, with_input t device buffer).

(** The loop [while (true)] of [tryReadInlineImgDict(dict)], with its
    locals [keyword] and [variant]; [fuel] bounds the iterations. *)
Fixpoint tryReadInlineImgDict_loop (fuel : nat) (t : PdfContentsTokenizer)
    (keyword : string) (variant : PdfVariant) (dict : PdfDictionary)
  : outcome (bool * PdfDictionary * PdfContentsTokenizer) :=
  match fuel with
  | O => Unfinished
  | S fuel =>
      '(ok, type, keyword, variant, t) ← tryReadNext t keyword variant;
      if negb ok then mret (false, dict, t)
      else
        match type with
        | EPdfContentsType.Keyword =>
            if String.eqb keyword "ID"
            then mret (true, dict, t)
            else mret (false, dict, t)
        | EPdfContentsType.Variant =>
            '(isName, key) ← of_result (TryGetName variant);
            if (isName : bool) then
              '(ok, variant, t) ← TryReadNextVariant t variant;
              if (ok : bool)
              then tryReadInlineImgDict_loop fuel t keyword variant
                     (PdfDictionary_AddKey dict key variant)
              else mret (false, dict, t)
            else mret (false, dict, t)
        | EPdfContentsType.Unknown => mret (false, dict, t)
        | EPdfContentsType.ImageDictionary
        | EPdfContentsType.ImageData =>
            Throws (runtime_error "Unsupported flow")
        end
  end.

Definition tryReadInlineImgDict (fuel : nat) (t : PdfContentsTokenizer)
    (dict : PdfDictionary)
  : outcome (bool * PdfDictionary * PdfContentsTokenizer) :=
  tryReadInlineImgDict_loop fuel t EmptyString VNull dict.

(** [TryReadNext(contentsType, keyword, variant)]: the flag, the three
    output parameters, and the tokenizer afterwards. *)
Definition TryReadNext (fuel : nat) (t : PdfContentsTokenizer)
    (contentsType : EPdfContentsType.t) (keyword : string)
    (variant : PdfVariant)
  : outcome (bool * EPdfContentsType.t * string * PdfVariant
             * PdfContentsTokenizer) :=
  if m_readingInlineImgData t then
    let keyword := EmptyString in
    '(found, data, t) ← of_result (tryReadInlineImgData t EmptyString);
    if (found : bool)
    then mret (true, EPdfContentsType.ImageData, keyword, VRawData data,
               with_readingInlineImgData t false)
    else mret (false, EPdfContentsType.Unknown, keyword, variant,
               with_readingInlineImgData t false)
  else
    '(ok, contentsType, keyword, variant, t) ← tryReadNext t keyword variant;
    if negb ok
    then mret (false, EPdfContentsType.Unknown, keyword, variant, t)
    else
      match contentsType with
      | EPdfContentsType.Keyword =>
          if String.eqb keyword "BI" then
            '(ok, dict, t) ← tryReadInlineImgDict fuel t [];
            if (ok : bool)
            then mret (true, EPdfContentsType.ImageDictionary, keyword,
                       VDictionary dict, with_readingInlineImgData t true)
            else mret (false, EPdfContentsType.Unknown, keyword, variant, t)
          else mret (true, contentsType, keyword, variant, t)
      | _ => mret (true, contentsType, keyword, variant, t)
      end.

End ContentsTokenizer.

(** A sample tokenizer: tokens are separated by one space; a token that
    begins with [/] is a name, any other a keyword. *)
Fixpoint sample_word (device : list ascii) : list ascii * list ascii :=
  match device with
  | [] => ([], [])
  | c :: device =>
      if Ascii.eqb c " " then ([], device)
      else let '(word, rest) := sample_word device in (c :: word, rest)
  end.

Definition sample_ptok : PdfTokenizerEnv := {|
  tokenizer_exception := Empty_set;
  PdfTokenizer_TryReadNext := λ device buffer keyword variant,
    match device with
    | [] =>
        inr (false, EPdfPostScriptTokenType.Other, keyword, variant,
             device, buffer)
    | _ =>
        let '(word, rest) := sample_word device in
        match word with
        | "/"%char :: name =>
            inr (true, EPdfPostScriptTokenType.Variant, keyword,
                 VName (String.string_of_list_ascii name), rest, buffer)
        | _ =>
            inr (true, EPdfPostScriptTokenType.Keyword,
                 String.string_of_list_ascii word, variant, rest, buffer)
        end
    end;
  PdfTokenizer_TryReadNextVariant := λ device buffer variant,
    match device with
    | [] => inr (false, variant, device, buffer)
    | _ =>
        let '(word, rest) := sample_word device in
        match word with
        | "/"%char :: name =>
            inr (true, VName (String.string_of_list_ascii name), rest, buffer)
        | _ => inr (false, variant, rest, buffer)
        end
    end;
  PdfDictionary_AddKey := λ dict key value, dict ++ [(key, value)];
|}.


Definition sample_contents (input : string) (reading : bool)
  : PdfContentsTokenizer :=
  {| m_buffer := replicate 4 Ascii.zero;
     m_device := String.list_ascii_of_string input;
     m_readingInlineImgData := reading |}.



(** ** PdfObjectStream

    The append protocol of [PdfObjectStream].  The class is abstract: the
    stream's storage is behind the virtual [BeginAppendImpl], [AppendImpl]
    and [EndAppendImpl], and the parent object, its document and the filter
    factory are other classes.  The model keeps [m_Append], the [/Filter]
    entry of the parent's dictionary, and the log of the calls made to those
    collaborators, in the order they are made. *)

Module PdfFilterType.
Inductive t :=
| None
| ASCIIHexDecode
| ASCII85Decode
| LZWDecode
| FlateDecode
| RunLengthDecode
| CCITTFaxDecode
| JBIG2Decode
| DCTDecode
| JPXDecode
| Crypt.

Definition eqb (a b : t) : bool :=
  match a, b with
  | None, None | ASCIIHexDecode, ASCIIHexDecode
  | ASCII85Decode, ASCII85Decode | LZWDecode, LZWDecode
  | FlateDecode, FlateDecode | RunLengthDecode, RunLengthDecode
  | CCITTFaxDecode, CCITTFaxDecode | JBIG2Decode, JBIG2Decode
  | DCTDecode, DCTDecode | JPXDecode, JPXDecode | Crypt, Crypt => true
  | _, _ => false
  end.
End PdfFilterType.

Definition PdfFilterList : Type := list PdfFilterType.t.

Module ObjectStream.

Inductive event :=
| SetDirty                       (* m_Parent->SetDirty() *)
| BeginAppendStream              (* document->GetObjects().BeginAppendStream *)
| EndAppendStream                (* document->GetObjects().EndAppendStream *)
| BeginAppendImpl (filters : PdfFilterList)
| AppendImpl (data : string)
| EndAppendImpl
| MoveStreamFrom.                (* obj.MoveStreamFrom of the parent *)

Record PdfObjectStream := {
  m_Append : bool;
  (** the entry of [PdfName::KeyFilter] in [m_Parent->GetDictionary()] *)
  parent_Filter : option PdfVariant;
  events : list event;
}.

(** [PdfObjectStream(parent)] *)
Definition create (parent_Filter : option PdfVariant) : PdfObjectStream :=
  {| m_Append := false; parent_Filter := parent_Filter; events := [] |}.

(** What is not part of the sources: the static [DefaultFilter] (a variable
    that starts as [FlateDecode]), the default arguments of [BeginAppend]
    (they stand in the header), whether the parent has a document, the
    names of the filters, and the content of the stream as its
    implementation holds it after the calls logged so far. *)
Class Env := {
  DefaultFilter : PdfFilterType.t;
  clearExisting_default : bool;
  deleteFilters_default : bool;
  GetDocument_is_null : bool;
  FilterTypeToName : PdfFilterType.t → PdfName;
  GetLength : list event → nat;
  (** [GetFilteredCopy(buffer, len)]: it throws, or yields a buffer that
      may be null *)
  GetFilteredCopy : list event → PdfErrorCode + option string;
}.

(** How a call ends. [PDFMM_RAISE_LOGIC_IF] throws a logic error. *)
Inductive completion :=
| Returned
| LogicError (msg : string)
| Error (e : PdfErrorCode).

Definition action : Type := PdfObjectStream → completion * PdfObjectStream.

Definition seq (f g : action) : action := λ s,
  match f s with
  | (Returned, s) => g s
  | raised => raised
  end.

Definition PDFMM_RAISE_LOGIC_IF (cond : PdfObjectStream → bool) (msg : string)
    (rest : action) : action := λ s,
  if cond s then (LogicError msg, s) else rest s.

Definition log (e : event) (s : PdfObjectStream) : PdfObjectStream :=
  {| m_Append := m_Append s; parent_Filter := parent_Filter s;
     events := events s ++ [e] |}.

Definition set_Append (b : bool) (s : PdfObjectStream) : PdfObjectStream :=
  {| m_Append := b; parent_Filter := parent_Filter s; events := events s |}.

Definition set_Filter (f : option PdfVariant) (s : PdfObjectStream)
  : PdfObjectStream :=
  {| m_Append := m_Append s; parent_Filter := f; events := events s |}.

Section Methods.
Context `{env : Env}.

Definition append (data : string) : action := λ s,
  (Returned, log (AppendImpl data) s).

Definition endAppend : action := λ s,
  let s := set_Append false s in
  let s := log EndAppendImpl s in
  let s := if GetDocument_is_null then s else log EndAppendStream s in
  (Returned, s).

Definition EndAppend : action :=
  PDFMM_RAISE_LOGIC_IF (λ s, negb (m_Append s))
    "EndAppend() failed because BeginAppend() was not yet called!"
    endAppend.

Definition Append (data : string) : action :=
  PDFMM_RAISE_LOGIC_IF (λ s, negb (m_Append s))
    "Append() failed because BeginAppend() was not yet called!"
    (λ s, if Nat.eqb (String.length data) 0 then (Returned, s)
          else append data s).

(** [BeginAppend(filters, clearExisting, deleteFilters, markObjectDirty)] *)
Definition BeginAppend_dirty (filters : PdfFilterList)
    (clearExisting deleteFilters markObjectDirty : bool) : action :=
  PDFMM_RAISE_LOGIC_IF m_Append
    "BeginAppend() failed because EndAppend() was not yet called!"
    (λ s,
      let s := if markObjectDirty then log SetDirty s else s in
      let s := if GetDocument_is_null then s else log BeginAppendStream s in
      match
        (if negb clearExisting && negb (Nat.eqb (GetLength (events s)) 0)
         then GetFilteredCopy (events s)
         else inr Datatypes.None)
      with
      | inl e => (Error e, s)
      | inr buffer =>
          let s :=
            match filters with
            | [] =>
                if deleteFilters then set_Filter Datatypes.None s else s
            | [filter] =>
                set_Filter (Some (VName (FilterTypeToName filter))) s
            | _ =>
                set_Filter
                  (Some (VArray
                           (map (λ filterType,
                                   VName (FilterTypeToName filterType))
                                filters))) s
            end in
          let s := log (BeginAppendImpl filters) s in
          let s := set_Append true s in
          match buffer with
          | Some data => append data s
          | Datatypes.None => (Returned, s)
          end
      end).

(** [BeginAppend(filters, clearExisting, deleteFilters)] *)
Definition BeginAppend_filters (filters : PdfFilterList)
    (clearExisting deleteFilters : bool) : action :=
  BeginAppend_dirty filters clearExisting deleteFilters true.

Definition default_filters : PdfFilterList :=
  if PdfFilterType.eqb DefaultFilter PdfFilterType.None
  then [] else [DefaultFilter].

(** [BeginAppend(clearExisting)] *)
Definition BeginAppend (clearExisting : bool) : action :=
  BeginAppend_filters default_filters clearExisting deleteFilters_default.

(** [Set(buffer, len, filters)] *)
Definition Set_filters (buffer : string) (filters : PdfFilterList) : action :=
  λ s,
  if Nat.eqb (String.length buffer) 0 then (Returned, s)
  else
    seq (BeginAppend_filters filters clearExisting_default
           deleteFilters_default)
      (seq (append buffer) endAppend) s.

(** [Set(buffer, len)] *)
Definition Set_buffer (buffer : string) : action := λ s,
  if Nat.eqb (String.length buffer) 0 then (Returned, s)
  else seq (BeginAppend clearExisting_default)
         (seq (append buffer) endAppend) s.

Definition MoveTo : action :=
  PDFMM_RAISE_LOGIC_IF m_Append
    "EndAppend() should be called before moving the stream"
    (λ s, (Returned, log MoveStreamFrom s)).

Definition EnsureAppendClosed : action :=
  PDFMM_RAISE_LOGIC_IF m_Append
    "EndAppend() should be called after appending to stream"
    (λ s, (Returned, s)).

(** The calls a client can make, and a client that makes a list of them,
    going on after a call that throws. *)
Inductive call :=
| call_BeginAppend (clearExisting : bool)
| call_BeginAppend_filters (filters : PdfFilterList)
    (clearExisting deleteFilters : bool)
| call_BeginAppend_dirty (filters : PdfFilterList)
    (clearExisting deleteFilters markObjectDirty : bool)
| call_Append (data : string)
| call_EndAppend
| call_Set (buffer : string)
| call_Set_filters (buffer : string) (filters : PdfFilterList)
| call_MoveTo
| call_EnsureAppendClosed.

Definition perform (c : call) : action :=
  match c with
  | call_BeginAppend clearExisting => BeginAppend clearExisting
  | call_BeginAppend_filters filters clearExisting deleteFilters =>
      BeginAppend_filters filters clearExisting deleteFilters
  | call_BeginAppend_dirty filters clearExisting deleteFilters dirty =>
      BeginAppend_dirty filters clearExisting deleteFilters dirty
  | call_Append data => Append data
  | call_EndAppend => EndAppend
  | call_Set buffer => Set_buffer buffer
  | call_Set_filters buffer filters => Set_filters buffer filters
  | call_MoveTo => MoveTo
  | call_EnsureAppendClosed => EnsureAppendClosed
  end.

Definition client (calls : list call) (s : PdfObjectStream)
  : PdfObjectStream :=
  foldl (λ s c, (perform c s).2) s calls.

End Methods.

(** [SetRawData(stream, len, markObjectDirty)] copies from a
    [PdfInputStream], which is not part of the sources: its [Read(buffer,
    len, eof)] is a parameter that yields the characters read, the flag
    [eof], and the stream afterwards. *)
Class InputEnv := {
  PdfInputStream : Type;
  Read : PdfInputStream → Z → string * bool * PdfInputStream;
}.

Definition BUFFER_SIZE : Z := 4096.

(** [(size_t)len] and the [ssize_t] that [len -= lenRead] leaves *)
Definition to_size_t (z : Z) : Z := z mod 2 ^ 64.
Definition to_ssize_t (z : Z) : Z := (z + 2 ^ 63) mod 2 ^ 64 - 2 ^ 63.

Section RawData.
Context `{env : Env} `{input : InputEnv}.

(** [do { lenRead = stream.Read(buffer, BUFFER_SIZE, eof);
    append(buffer, lenRead); } while (!eof);] *)
Fixpoint copy_to_eof (fuel : nat) (stream : PdfInputStream)
    (s : PdfObjectStream) : option (PdfInputStream * PdfObjectStream) :=
  match fuel with
  | O => Datatypes.None
  | S fuel =>
      let '(data, eof, stream) := Read stream BUFFER_SIZE in
      let s := (append data s).2 in
      if negb eof then copy_to_eof fuel stream s else Some (stream, s)
  end.

(** [do { lenRead = stream.Read(buffer, min(BUFFER_SIZE, (size_t)len), eof);
    len -= lenRead; append(buffer, lenRead); } while (len > 0 && !eof);] *)
Fixpoint copy_len (fuel : nat) (stream : PdfInputStream) (len : Z)
    (s : PdfObjectStream) : option (PdfInputStream * PdfObjectStream) :=
  match fuel with
  | O => Datatypes.None
  | S fuel =>
      let '(data, eof, stream) :=
        Read stream (Z.min BUFFER_SIZE (to_size_t len)) in
      let len := to_ssize_t (len - Z.of_nat (String.length data)) in
      let s := (append data s).2 in
      if (0 <? len) && negb eof
      then copy_len fuel stream len s
      else Some (stream, s)
  end.

(** [SetRawData(stream, len, markObjectDirty)]; [None] when the fuel is
    spent in one of the loops. *)
Definition SetRawData (fuel : nat) (stream : PdfInputStream) (len : Z)
    (markObjectDirty : bool) (s : PdfObjectStream)
  : option (completion * PdfInputStream * PdfObjectStream) :=
  match BeginAppend_dirty [] true false markObjectDirty s with
  | (Returned, s) =>
      match
        (if len <? 0 then copy_to_eof fuel stream s
         else copy_len fuel stream len s)
      with
      | Some (stream, s) =>
          let '(c, s) := endAppend s in Some (c, stream, s)
      | Datatypes.None => Datatypes.None
      end
  | (raised, s) => Some (raised, stream, s)
  end.

End RawData.

(** The number of characters handed to [AppendImpl] in a log. *)
Fixpoint appended (log : list event) : Z :=
  match log with
  | [] => 0
  | AppendImpl data :: log => Z.of_nat (String.length data) + appended log
  | _ :: log => appended log
  end.

(** A sample input: a stream of [n] characters [x] that reads as much as
    it is asked for. *)
Fixpoint xs (n : nat) : string :=
  match n with
  | O => EmptyString
  | S n => String "x" (xs n)
  end.

Definition sample_input : InputEnv := {|
  PdfInputStream := nat;
  Read := λ stream size,
    let n := Nat.min stream (Z.to_nat size) in
    (xs n, Nat.eqb (stream - n) 0, (stream - n)%nat);
|}.

(** The calls to the implementation come in brackets: from [open] (inside
    [BeginAppendImpl] .. [EndAppendImpl] or not), the log is read event by
    event; [None] when [BeginAppendImpl] comes inside a bracket, or
    [AppendImpl], [EndAppendImpl] outside of one, or the stream is moved
    inside of one. *)
Fixpoint bracketed (open : bool) (log : list event) : option bool :=
  match log with
  | [] => Some open
  | BeginAppendImpl _ :: log =>
      if open then Datatypes.None else bracketed true log
  | AppendImpl _ :: log =>
      if open then bracketed true log else Datatypes.None
  | EndAppendImpl :: log =>
      if open then bracketed false log else Datatypes.None
  | MoveStreamFrom :: log =>
      if open then Datatypes.None else bracketed false log
  | _ :: log => bracketed open log
  end.

(** The log of [s] is bracketed and ends inside a bracket or not as [open]
    says. *)
Definition traced (s : PdfObjectStream) (open : bool) : Prop :=
  bracketed false (events s) = Some open.

(** Calls that need the stream not to be appending, and calls that need it
    to be. *)
Definition needs_closed (c : call) : bool :=
  match c with
  | call_BeginAppend _ | call_BeginAppend_filters _ _ _
  | call_BeginAppend_dirty _ _ _ _ | call_MoveTo
  | call_EnsureAppendClosed => true
  | call_Set buffer | call_Set_filters buffer _ =>
      negb (Nat.eqb (String.length buffer) 0)
  | call_Append _ | call_EndAppend => false
  end.

Definition needs_open (c : call) : bool :=
  match c with
  | call_Append _ | call_EndAppend => true
  | _ => false
  end.

Definition sample_env : Env := {|
  DefaultFilter := PdfFilterType.FlateDecode;
  clearExisting_default := true;
  deleteFilters_default := true;
  GetDocument_is_null := false;
  FilterTypeToName := λ f,
    match f with
    | PdfFilterType.FlateDecode => "FlateDecode"%string
    | PdfFilterType.ASCIIHexDecode => "ASCIIHexDecode"%string
    | _ => "Other"%string
    end;
  GetLength := λ log, length log;
  GetFilteredCopy := λ log, inr (Some "old"%string);
|}.

End ObjectStream.



(* ===================================================================== *)
(** * Part II: properties                                                 *)
(* ===================================================================== *)

(** ** Equality of variants *)

Section Equality.
Context `{env : PdfEnv}.

Lemma operator_eq_self (h : heap) (this : addr) :
  operator_eq h this this = Ok true.
Proof. unfold operator_eq. by rewrite Nat.eqb_refl. Qed.

Lemma operator_eq_distinct_tag (h : heap) (this rhs : addr) :
  m_DataType (h this) ≠ m_DataType (h rhs) → Nat.eqb this rhs = false.
Proof.
  intros Htag. apply Nat.eqb_neq. intros ->. by apply Htag.
Qed.

(** C1. A Real on the left is equal only to a Real: against any right-hand
    side whose tag is not Real (an Integer of the same numeric value
    included) [operator==] returns false. *)
Theorem real_eq_requires_strict_real (h : heap) (this rhs : addr) (d : float) :
  h this = VReal d →
  IsRealStrict (h rhs) = false →
  operator_eq h this rhs = Ok false.
Proof.
  intros Hthis Hrhs.
  unfold operator_eq.
  rewrite (operator_eq_distinct_tag h).
  - rewrite Hthis. by destruct (h rhs).
  - rewrite Hthis. intros Heq. unfold IsRealStrict in Hrhs.
    rewrite <- Heq in Hrhs. discriminate.
Qed.

(** C2 (as amended). Equality on an Integer is strict: with a Number on
    the left, [operator==] returns true exactly when the right-hand side is
    a Number holding the same integer; any other right-hand side, a Real of
    the same numeric value included, compares unequal. *)
Theorem number_eq_requires_number (h : heap) (this rhs : addr) (n : Z) :
  h this = VNumber n →
  operator_eq h this rhs
  = Ok (match h rhs with VNumber m => n =? m | _ => false end).
Proof.
  intros Hthis. unfold operator_eq.
  destruct (Nat.eqb_spec this rhs) as [<- | Hne].
  - rewrite Hthis. by rewrite Z.eqb_refl.
  - rewrite Hthis. by destruct (h rhs).
Qed.

(** C3 (as amended). [operator!=] answers true for every pair of distinct
    objects, whatever they hold; so on distinct objects it is the negation
    of [operator==] exactly when [operator==] returns false, and two
    distinct objects that [operator==] finds equal are also unequal. *)
Theorem operator_ne_distinct_objects (h : heap) (a b : addr) :
  a ≠ b →
  operator_ne h a b = Ok true
  ∧ ∀ r, operator_eq h a b = Ok r →
         (operator_ne h a b = Ok (negb r) ↔ r = false).
Proof.
  intros Hne.
  assert (Hne' : operator_ne h a b = Ok true).
  { unfold operator_ne. apply Nat.eqb_neq in Hne. by rewrite Hne. }
  split; [done |].
  intros r _. rewrite Hne'. destruct r; simpl; split; congruence.
Qed.

(** C4 (as amended). Comparing a RawData variant with a different object
    raises [NotImplemented]; compared with itself it is equal, by the
    identity test that precedes the switch. *)
Theorem rawdata_eq_not_implemented (h : heap) (this rhs : addr) (d : PdfData) :
  h this = VRawData d →
  operator_eq h this rhs
  = if Nat.eqb this rhs then Ok true else Raise NotImplemented.
Proof.
  intros Hthis. unfold operator_eq.
  destruct (Nat.eqb this rhs); [done |]. by rewrite Hthis.
Qed.

End Equality.

Lemma real_eq_requires_strict_real_witness :
  one_real_one_number 0%nat = VReal 1%float
  ∧ IsRealStrict (one_real_one_number 1%nat) = false
  ∧ @operator_eq sample_env one_real_one_number 0%nat 1%nat = Ok false.
Proof.
  split; [reflexivity |]. split; [reflexivity |].
  apply (@real_eq_requires_strict_real sample_env one_real_one_number
           0%nat 1%nat 1%float); reflexivity.
Defined.

(** C2, as stated, fails: the Real 1.0 converts leniently to the Integer 1,
    yet the Integer 1 does not compare equal to it. *)
Lemma number_eq_lenient_real_counterexample :
  ¬ (∀ (h : heap) (this rhs : addr) (n : Z),
       h this = VNumber n →
       IsNumberOrReal (h rhs) = true →
       @TryGetNumberLenient sample_env (h rhs) = Ok (true, n) →
       @operator_eq sample_env h this rhs = Ok true).
Proof.
  intros Hclaim.
  specialize (Hclaim one_real_one_number 1%nat 0%nat 1).
  vm_compute in Hclaim.
  specialize (Hclaim eq_refl eq_refl eq_refl). discriminate.
Qed.

Lemma number_eq_requires_number_witness :
  one_real_one_number 1%nat = VNumber 1
  ∧ @operator_eq sample_env one_real_one_number 1%nat 0%nat = Ok false.
Proof.
  split; [reflexivity |].
  apply (@number_eq_requires_number sample_env one_real_one_number
           1%nat 0%nat 1). reflexivity.
Defined.

(** C3, as stated, fails in its last clause: on the distinct objects 1 and
    2, [operator!=] is the negation of [operator==] although no value is
    compared with itself. *)
Lemma operator_ne_negation_counterexample :
  ¬ (∀ (h : heap) (a b : addr) (r : bool),
       @operator_eq sample_env h a b = Ok r →
       @operator_ne sample_env h a b = Ok (negb r) →
       a = b).
Proof.
  intros Hclaim.
  specialize (Hclaim one_and_two 0%nat 1%nat false eq_refl eq_refl).
  discriminate.
Qed.

Lemma operator_ne_distinct_objects_witness :
  0%nat ≠ 1%nat
  ∧ @operator_ne sample_env one_and_two 0%nat 1%nat = Ok true.
Proof.
  split; [lia |].
  apply (@operator_ne_distinct_objects sample_env one_and_two 0%nat 1%nat).
  lia.
Defined.

(** C4, as stated, fails: a RawData variant compared with itself is
    equal. *)
Lemma rawdata_eq_self_counterexample :
  ¬ (∀ (h : heap) (this rhs : addr) (d : PdfData),
       h this = VRawData d →
       @operator_eq sample_env h this rhs = Raise NotImplemented).
Proof.
  intros Hclaim.
  specialize (Hclaim raw_objects 0%nat 0%nat "x"%string eq_refl).
  discriminate.
Qed.

Lemma rawdata_eq_not_implemented_witness :
  raw_objects 0%nat = VRawData "x"
  ∧ @operator_eq sample_env raw_objects 0%nat 1%nat = Raise NotImplemented.
Proof.
  split; [reflexivity |].
  apply (@rawdata_eq_not_implemented sample_env raw_objects 0%nat 1%nat
           "x"%string). reflexivity.
Defined.

(** ** Typed accessors *)

(** The value of [std::round] is a nearest integer. *)
Lemma round_half_away_nearest (m k : Z) :
  0 < m → 0 < k →
  Z.abs ((m + 2 ^ (k - 1)) / 2 ^ k * 2 ^ k - m) * 2 ≤ 2 ^ k.
Proof.
  intros Hm Hk.
  assert (Hpow : 2 ^ k = 2 * 2 ^ (k - 1)).
  { rewrite <- Z.pow_succ_r by lia. f_equal. lia. }
  assert (Hpos : 0 < 2 ^ (k - 1)) by (apply Z.pow_pos_nonneg; lia).
  rewrite Hpow.
  set (H := 2 ^ (k - 1)) in *.
  pose proof (Z.div_mod (m + H) (2 * H) ltac:(lia)) as Hdiv.
  pose proof (Z.mod_pos_bound (m + H) (2 * H) ltac:(lia)) as Hmod.
  lia.
Qed.

Lemma std_round_nearest (d : float) (x : Q) :
  double_value d = Some x →
  ∃ z, std_round d = Some z ∧ (Qabs (inject_Z z - x) <= 1 # 2)%Q.
Proof.
  unfold double_value, std_round.
  destruct (Prim2SF d) as [s | s | | s m e]; try discriminate.
  - intros [= <-]. exists 0. split; [done |]. by vm_compute.
  - intros [= <-]. eexists. split; [reflexivity |].
    unfold dyadic. destruct (Z.leb_spec 0 e) as [He | He].
    + unfold Qle, Qabs, Qminus, Qplus, Qopp, inject_Z. simpl.
      destruct s; simpl; lia.
    + pose proof (round_half_away_nearest (Z.pos m) (- e) ltac:(lia) ltac:(lia))
        as Hnear.
      assert (Hpos : 0 < 2 ^ (- e)) by (apply Z.pow_pos_nonneg; lia).
      unfold Qle, Qabs, Qminus, Qplus, Qopp, inject_Z.
      cbn [Qnum Qden].
      rewrite Z2Pos.id by lia.
      destruct s; cbn [Z.opp]; lia.
Qed.

Section Accessors.
Context `{env : PdfEnv}.

Lemma try_contract_never_raises {T} (accessor : PdfVariant → result (bool * T))
    family default :
  try_contract accessor family default → never_raises accessor.
Proof. intros Hc v. rewrite (Hc v). eauto. Qed.

(** C5. Every Try accessor returns on every variant; on a tag outside its
    family it answers false and leaves the default (false, 0, 0.0, the empty
    string or name, the null reference, a null pointer) in the output; on a
    tag of its family it answers true and outputs the payload, the lenient
    numeric accessors in the type of their output (an Integer as a double, a
    Real rounded to an integer). *)
Theorem try_accessors_total :
  try_contract TryGetBool
    (λ v, match v with VBool b => Some b | _ => None end) false
  ∧ try_contract TryGetNumber
      (λ v, match v with VNumber n => Some n | _ => None end) 0
  ∧ try_contract TryGetNumberLenient
      (λ v, match v with
            | VNumber n => Some n
            | VReal d => Some (static_cast_int64_round d)
            | _ => None
            end) 0
  ∧ try_contract TryGetReal
      (λ v, match v with
            | VReal d => Some d
            | VNumber n => Some (static_cast_double n)
            | _ => None
            end) 0%float
  ∧ try_contract TryGetRealStrict
      (λ v, match v with VReal d => Some d | _ => None end) 0%float
  ∧ try_contract TryGetString
      (λ v, match v with VString s => Some s | _ => None end) EmptyString
  ∧ try_contract TryGetName
      (λ v, match v with VName n => Some n | _ => None end) EmptyString
  ∧ try_contract TryGetReference
      (λ v, match v with VReference r => Some r | _ => None end)
      PdfReference_default
  ∧ try_contract TryGetArray
      (λ v, match v with VArray a => Some (Some a) | _ => None end) None
  ∧ try_contract TryGetDictionary
      (λ v, match v with VDictionary d => Some (Some d) | _ => None end) None
  ∧ never_raises TryGetBool ∧ never_raises TryGetNumber
  ∧ never_raises TryGetNumberLenient ∧ never_raises TryGetReal
  ∧ never_raises TryGetRealStrict ∧ never_raises TryGetString
  ∧ never_raises TryGetName ∧ never_raises TryGetReference
  ∧ never_raises TryGetArray ∧ never_raises TryGetDictionary.
Proof.
  repeat split; intros v; destruct v; try reflexivity; eauto.
Qed.

(** C6. The lenient integer accessor succeeds exactly on a Number or a
    Real.  A Number comes back unchanged.  A Real comes back as
    [static_cast<int64_t>(std::round(x))]: for a finite double whose
    rounding fits 64 bits this is that rounding, an integer nearest to the
    double; for a finite double whose rounding does not fit, and for an
    infinity or a NaN, the accessor succeeds all the same, and what comes
    back is what the target makes of the conversion, not a rounding. *)
Theorem number_lenient_rounds (v : PdfVariant) :
  (∃ out, TryGetNumberLenient v = Ok (IsNumberOrReal v, out)
          ∧ GetNumberLenient v
            = if IsNumberOrReal v then Ok out else Raise InvalidDataType)
  ∧ (∀ n, v = VNumber n →
          TryGetNumberLenient v = Ok (true, n) ∧ GetNumberLenient v = Ok n)
  ∧ (∀ d x, v = VReal d → double_value d = Some x →
            ∃ z, std_round d = Some z
                 ∧ (Qabs (inject_Z z - x) <= 1 # 2)%Q
                 ∧ (in_int64 z = true →
                    TryGetNumberLenient v = Ok (true, z)
                    ∧ GetNumberLenient v = Ok z)
                 ∧ (in_int64 z = false →
                    TryGetNumberLenient v
                    = Ok (true, int64_of_unrepresentable d)
                    ∧ GetNumberLenient v
                      = Ok (int64_of_unrepresentable d)))
  ∧ (∀ d, v = VReal d → double_value d = None →
          TryGetNumberLenient v = Ok (true, int64_of_unrepresentable d)
          ∧ GetNumberLenient v = Ok (int64_of_unrepresentable d)).
Proof.
  split; [| split; [| split]].
  - destruct v; eexists; split; reflexivity.
  - intros n ->. split; reflexivity.
  - intros d x -> Hx.
    destruct (std_round_nearest d x Hx) as (z & Hz & Hnear).
    exists z. split; [done |]. split; [done |].
    split; intros Hrange; unfold GetNumberLenient, TryGetNumberLenient;
      simpl; unfold static_cast_int64_round; rewrite Hz, Hrange;
      split; reflexivity.
  - intros d -> Hnone.
    assert (std_round d = None) as Hround.
    { unfold double_value in Hnone. unfold std_round.
      by destruct (Prim2SF d). }
    unfold GetNumberLenient, TryGetNumberLenient. simpl.
    unfold static_cast_int64_round. rewrite Hround. split; reflexivity.
Qed.

End Accessors.

Lemma number_lenient_out_of_range_counterexample :
  ¬ (∀ (d : float) (x : Q),
       double_value d = Some x →
       ∃ z, @GetNumberLenient sample_env (VReal d) = Ok z
            ∧ (Qabs (inject_Z z - x) <= 1 # 2)%Q).
Proof.
  intros Hclaim.
  destruct (Hclaim 1e19%float (inject_Z (10 ^ 19)) eq_refl) as (z & Hz & Hnear).
  vm_compute in Hz. injection Hz as <-.
  vm_compute in Hnear. by apply Hnear.
Qed.

Example number_lenient_1e19 :
  double_value 1e19%float = Some (inject_Z (10 ^ 19))
  ∧ in_int64 (10 ^ 19) = false
  ∧ @TryGetNumberLenient sample_env (VReal 1e19%float) = Ok (true, INT64_MIN)
  ∧ @GetNumberLenient sample_env (VReal 1e19%float) = Ok INT64_MIN.
Proof. repeat split; reflexivity. Qed.

Lemma number_lenient_rounds_witness :
  (∃ x, double_value 2.5%float = Some x ∧ (x == 5 # 2)%Q)
  ∧ in_int64 3 = true
  ∧ @TryGetNumberLenient sample_env (VReal 2.5%float) = Ok (true, 3)
  ∧ @GetNumberLenient sample_env (VReal 2.5%float) = Ok 3.
Proof.
  split; [eexists; split; reflexivity |]. split; [reflexivity |].
  destruct (@number_lenient_rounds sample_env (VReal 2.5%float))
    as (_ & _ & Hreal & _).
  destruct (Hreal 2.5%float _ eq_refl eq_refl) as (z & Hz & _ & Hout & _).
  injection Hz as <-. exact (Hout eq_refl).
Defined.

(** ** Serialization *)

Lemma string_app_assoc (a b c : string) : (a +:+ b) +:+ c = a +:+ b +:+ c.
Proof.
  induction a as [| x a IH]; [done |].
  unfold String.app in *. simpl. by rewrite IH.
Qed.

Lemma string_app_empty_l (a : string) : "" +:+ a = a.
Proof. done. Qed.

Lemma length_list_ascii_of_string (s : string) :
  length (String.list_ascii_of_string s) = String.length s.
Proof. induction s as [| x s IH]; simpl; [done | by rewrite IH]. Qed.

(** Writing a whole NUL-terminated buffer appends the string. *)
Lemma device_Write_all (device s : string) :
  device_Write device (c_str s) (String.length s) = device +:+ s.
Proof.
  unfold device_Write, c_str.
  rewrite <- length_list_ascii_of_string, take_app_length.
  by rewrite String.string_of_list_ascii_of_string.
Qed.

Lemma device_Write_prefix (device : string) (p rest : list ascii) :
  device_Write device (p ++ rest) (length p)
  = device +:+ String.string_of_list_ascii p.
Proof. unfold device_Write. by rewrite take_app_length. Qed.

Lemma string_find_elem_of (c : ascii) (s : string) :
  string_find c s ≠ None ↔ c ∈ String.list_ascii_of_string s.
Proof.
  induction s as [| x s IH]; simpl.
  - split; [done | by intros ?%elem_of_nil].
  - destruct (Ascii.eqb_spec x c) as [-> | Hne].
    + split; [intros _; left | done].
    + rewrite elem_of_cons, <- IH.
      destruct (string_find c s); simpl; split; try done.
      * by right.
      * by intros [-> |].
Qed.

(** *** The stripping loop *)

Lemma drop_zeros_suffix (l : list ascii) :
  ∃ zs, l = zs ++ drop_zeros l.
Proof.
  induction l as [| c l [zs IH]]; simpl; [by exists [] |].
  destruct (Ascii.eqb c "0"); [| by exists []].
  exists (c :: zs). simpl. by rewrite <- IH.
Qed.

Lemma strip_trailing_zeros_prefix (l : list ascii) :
  ∃ zs, l = strip_trailing_zeros l ++ zs.
Proof.
  unfold strip_trailing_zeros.
  destruct (drop_zeros_suffix (reverse l)) as [zs Hzs].
  exists (reverse zs).
  rewrite <- reverse_app, <- Hzs. by rewrite reverse_involutive.
Qed.

Lemma drop_zeros_nonempty (l : list ascii) (c : ascii) :
  c ∈ l → c ≠ "0"%char → drop_zeros l ≠ [].
Proof.
  induction l as [| x l IH]; intros Hin Hc; [by apply elem_of_nil in Hin |].
  simpl. destruct (Ascii.eqb_spec x "0") as [-> | Hx]; [| done].
  apply IH; [| done]. apply elem_of_cons in Hin as [-> | Hin]; done.
Qed.

Lemma strip_zeros_loop_spec (l tail : list ascii) (c : ascii) :
  c ∈ l → c ≠ "0"%char →
  strip_zeros_loop (l ++ tail) (length l)
  = Ok (length (strip_trailing_zeros l)).
Proof.
  revert tail. induction l as [| x l IH] using rev_ind; intros tail Hin Hc.
  { by apply elem_of_nil in Hin. }
  rewrite length_app, Nat.add_1_r. simpl.
  unfold read. rewrite <- app_assoc. change ([x] ++ tail) with (x :: tail).
  rewrite list_lookup_middle by done. simpl.
  unfold strip_trailing_zeros. rewrite reverse_snoc. simpl.
  destruct (Ascii.eqb_spec x "0") as [-> | Hx].
  - apply IH; [| done].
    apply elem_of_app in Hin as [Hin | Hin]; [done |].
    by apply list_elem_of_singleton in Hin.
  - simpl. by rewrite reverse_cons, reverse_involutive, length_app,
      Nat.add_1_r.
Qed.

(** The compact branch of the Real case writes the stripped rendering. *)
Lemma compact_branch_spec (device copy : string) :
  string_find "." copy ≠ None →
  (len ← strip_zeros_loop (c_str copy) (String.length copy);
   c ← read_last (c_str copy) len;
   let len := if Ascii.eqb c "." then (len - 1)%nat else len in
   if Nat.eqb len 0 then mret (device_Write device (c_str "0") 1)
   else mret (device_Write device (c_str copy) len))
  = Ok (device +:+ compact_real copy).
Proof.
  intros Hdot. unfold compact_real. rewrite bool_decide_eq_true_2 by done.
  pose proof (proj1 (string_find_elem_of _ _) Hdot) as Hin.
  remember (String.list_ascii_of_string copy) as l eqn:Hl.
  assert (Hlen : String.length copy = length l).
  { by rewrite Hl, length_list_ascii_of_string. }
  assert (Hstr : c_str copy = l ++ [Ascii.zero]).
  { unfold c_str. by rewrite Hl. }
  rewrite !Hstr, Hlen.
  rewrite (strip_zeros_loop_spec l [Ascii.zero] "."%char) by done.
  destruct (strip_trailing_zeros_prefix l) as [zs Hzs].
  pose proof (drop_zeros_nonempty (reverse l) "."%char) as Hne.
  unfold strip_trailing_zeros in *.
  destruct (drop_zeros (reverse l)) as [| c r] eqn:Hr.
  { exfalso. apply Hne; [by apply elem_of_reverse | done | done]. }
  clear Hne. rewrite reverse_cons in *.
  unfold strip_trailing_dot. rewrite reverse_snoc, reverse_involutive.
  rewrite length_app, Nat.add_1_r. simpl.
  unfold read.
  rewrite Hzs at 1. rewrite <- !app_assoc.
  change ([c] ++ zs ++ [Ascii.zero]) with (c :: zs ++ [Ascii.zero]).
  rewrite list_lookup_middle by done. simpl.
  generalize dependent (reverse r). intros q Hzs.
  destruct (Ascii.eqb_spec c ".") as [-> | Hc].
  - rewrite Nat.sub_0_r.
    destruct q as [| y p]; [done |].
    simpl Nat.eqb. cbv iota. f_equal.
    rewrite Hzs at 1. rewrite <- !app_assoc.
    apply device_Write_prefix.
  - simpl. f_equal.
    replace (S (length q)) with (length (q ++ [c]))
      by (rewrite length_app; simpl; lia).
    rewrite Hzs at 1. rewrite <- !app_assoc, (app_assoc q).
    rewrite device_Write_prefix. by destruct q.
Qed.

Lemma token_ok_app (a b : string) : token_ok a → token_ok (a +:+ b).
Proof. by destruct a. Qed.

Lemma print_int64_ok (n : Z) : token_ok (print_int64 n).
Proof.
  unfold print_int64, NilZero.string_of_int.
  destruct (Z.to_int n) as [u | u]; [| done].
  unfold NilZero.string_of_uint. by destruct u.
Qed.

Lemma ostream_fixed_ok `{env : PdfEnv} (d : float) :
  token_ok (ostream_fixed d).
Proof.
  unfold ostream_fixed.
  destruct (Prim2SF d) as [[] | [] | | [] m e]; try done;
    [by destruct NaN_sign |].
  rewrite string_app_empty_l. apply token_ok_app, print_int64_ok.
Qed.

Lemma strip_trailing_dot_prefix (l : list ascii) :
  ∃ zs, l = strip_trailing_dot l ++ zs.
Proof.
  unfold strip_trailing_dot.
  destruct (reverse l) as [| c r] eqn:Hr.
  - apply (f_equal reverse) in Hr. rewrite reverse_involutive in Hr.
    exists []. by rewrite Hr.
  - destruct (Ascii.eqb c "."); [| exists []; by rewrite app_nil_r].
    exists [c]. apply (f_equal reverse) in Hr.
    by rewrite reverse_involutive, reverse_cons in Hr.
Qed.

Lemma compact_real_ok (copy : string) :
  token_ok copy → token_ok (compact_real copy).
Proof.
  intros Hok. unfold compact_real. case_bool_decide; [| done].
  destruct (strip_trailing_zeros_prefix (String.list_ascii_of_string copy))
    as [zs Hzs].
  destruct (strip_trailing_dot_prefix
              (strip_trailing_zeros (String.list_ascii_of_string copy)))
    as [zs' Hzs'].
  destruct (strip_trailing_dot _) as [| c p]; [done |].
  rewrite Hzs' in Hzs. destruct copy as [| x copy]; [done |].
  simpl in *. by injection Hzs as -> _.
Qed.

Section Serialization.
Context `{env : PdfEnv}.

Lemma leading_space_written (device : string) (writeMode : Z) :
  (if is_compact writeMode then device_Write device (c_str " ") 1
   else device)
  = device +:+ leading_space (is_compact writeMode).
Proof.
  destruct (is_compact writeMode); simpl.
  - reflexivity.
  - unfold String.app. induction device as [| c device IH]; simpl; [done |].
    by rewrite <- IH.
Qed.

(** The Real case of [Write] against the rules of the specification. *)
Lemma Write_Real_spec (d : float) (device : string) (writeMode : Z)
    (encrypt : option PdfEncrypt) :
  Write (VReal d) device writeMode encrypt
  = Ok (device +:+ leading_space (is_compact writeMode)
        +:+ (if is_compact writeMode then compact_real (ostream_fixed d)
             else ostream_fixed d)).
Proof.
  unfold Write. rewrite leading_space_written.
  destruct (is_compact writeMode); simpl andb; cbv iota.
  - case_bool_decide as Hdot.
    + rewrite compact_branch_spec by done. by rewrite string_app_assoc.
    + rewrite device_Write_all, string_app_assoc.
      unfold compact_real.
      by rewrite bool_decide_eq_false_2 by (intros Hn; by apply Hn).
  - by rewrite device_Write_all, string_app_assoc.
Qed.

(** C7. For a Bool, Integer, Real or Null value, [Write] emits in compact
    mode one space and then the token ("true"/"false", the decimal integer,
    the fixed-point real, "null"), and in non-compact mode the token alone;
    the token is not empty and does not begin with a space. *)
Theorem write_literal_leading_space (v : PdfVariant) (device : string)
    (writeMode : Z) (encrypt : option PdfEncrypt) :
  is_literal v = true →
  ∃ token,
    literal_token (is_compact writeMode) v = Some token
    ∧ token_ok token
    ∧ Write v device writeMode encrypt
      = Ok (device +:+ (if is_compact writeMode then " " +:+ token
                        else token)).
Proof.
  intros Hlit.
  assert (Hshape : ∀ token,
    device +:+ leading_space (is_compact writeMode) +:+ token
    = device +:+ (if is_compact writeMode then " " +:+ token else token)).
  { intros token. by destruct (is_compact writeMode). }
  destruct v as [| b | n | d | | | | | | |]; try discriminate.
  - exists (if b then "true" else "false")%string.
    split; [by destruct b |]. split; [by destruct b |].
    rewrite <- Hshape. unfold Write. rewrite leading_space_written.
    destruct b; by rewrite <- string_app_assoc.
  - exists (print_int64 n). split; [done |]. split; [apply print_int64_ok |].
    rewrite <- Hshape. unfold Write. rewrite leading_space_written.
    by rewrite <- string_app_assoc.
  - eexists. split; [reflexivity |]. split.
    + destruct (is_compact writeMode);
        [apply compact_real_ok |]; apply ostream_fixed_ok.
    + rewrite <- Hshape. apply Write_Real_spec.
  - exists "null"%string. split; [done |]. split; [done |].
    rewrite <- Hshape. unfold Write. rewrite leading_space_written.
    by rewrite <- string_app_assoc.
Qed.

(** C8. For a Real, [Write] renders the double in fixed-point notation; in
    compact mode, when the rendering has a decimal point, the trailing '0'
    characters and then a trailing '.' are stripped, and "0" is written if
    nothing is left; in non-compact mode the rendering is written as it
    is. *)
Theorem write_real_strips_in_compact_mode (d : float) (device : string)
    (writeMode : Z) (encrypt : option PdfEncrypt) :
  let copy := ostream_fixed d in
  let l := String.list_ascii_of_string copy in
  let stripped := strip_trailing_dot (strip_trailing_zeros l) in
  Write (VReal d) device writeMode encrypt
  = Ok (device
        +:+ (if is_compact writeMode then
               " " +:+ (if bool_decide ("."%char ∈ l) then
                          match stripped with
                          | [] => "0"
                          | _ => String.string_of_list_ascii stripped
                          end
                        else copy)
             else copy)).
Proof.
  intros copy l stripped. rewrite Write_Real_spec.
  destruct (is_compact writeMode); [| done].
  do 3 f_equal. unfold compact_real. fold copy l stripped.
  by rewrite (bool_decide_ext _ _ (string_find_elem_of "." copy)).
Qed.

End Serialization.

Lemma write_literal_leading_space_witness :
  is_literal (VReal 1.5%float) = true
  ∧ @Write sample_env (VReal 1.5%float) "/W" 1 None = Ok "/W 1.5".
Proof.
  split; [reflexivity |].
  destruct (@write_literal_leading_space sample_env (VReal 1.5%float)
              "/W" 1 None eq_refl) as (token & Htoken & _ & Hwrite).
  vm_compute in Htoken. injection Htoken as <-. exact Hwrite.
Defined.

Example write_real_compact :
  @Write sample_env (VReal 100%float) "" 1 None = Ok " 100".
Proof. reflexivity. Qed.

Example write_real_clean :
  @Write sample_env (VReal 100%float) "" 2 None = Ok "100.000000".
Proof. reflexivity. Qed.

Example write_real_zero_compact :
  @Write sample_env (VReal 0%float) "" 1 None = Ok " 0".
Proof. reflexivity. Qed.

Example write_number_compact :
  @Write sample_env (VNumber (-42)) "" 1 None = Ok " -42".
Proof. reflexivity. Qed.

Example write_null_clean :
  @Write sample_env VNull "" 2 None = Ok "null".
Proof. reflexivity. Qed.

(** A rendering that strips to nothing is written as "0". *)
Example compact_real_empty : compact_real ".000" = "0"%string.
Proof. reflexivity. Qed.

(** ** The indirect object list: allocation of ids *)

Section Allocation.
Variable maxGeneration : nat.

Lemma CreateObject_cases (variant : PdfVariant) (s : PdfIndirectObjectList) :
  let '(ref, s') := CreateObject variant s in
  m_Objects s' = <[ref := new_object variant]> (m_Objects s)
  ∧ ((m_CanReuseObjectNumbers s = true
      ∧ m_FreeObjects s = ref :: m_FreeObjects s'
      ∧ m_ObjectCount s'
        = Nat.max (m_ObjectCount s) (ObjectNumber ref))
     ∨ ((m_CanReuseObjectNumbers s = false ∨ m_FreeObjects s = [])
        ∧ m_FreeObjects s' = m_FreeObjects s
        ∧ ref = (S (m_ObjectCount s), 0%nat)
        ∧ m_ObjectCount s' = S (m_ObjectCount s))).
Proof.
  unfold CreateObject, getNextFreeObject.
  destruct (m_CanReuseObjectNumbers s) eqn:Hreuse;
    [destruct (m_FreeObjects s) as [| ref rest] eqn:Hfree |];
    simpl; (split; [done |]).
  - right. unfold ObjectNumber. simpl. repeat split; auto; lia.
  - left. done.
  - right. unfold ObjectNumber. simpl. repeat split; auto; lia.
Qed.

Lemma RemoveObject_cases (ref : PdfReference) (markAsFree : bool)
    (s : PdfIndirectObjectList) :
  let s' := (RemoveObject maxGeneration ref markAsFree s).2 in
  m_Objects s' = delete ref (m_Objects s)
  ∧ m_ObjectCount s' = m_ObjectCount s
  ∧ (m_FreeObjects s' = m_FreeObjects s
     ∨ (m_FreeObjects s'
        = m_FreeObjects s ++ [(ObjectNumber ref, S (GenerationNumber ref))]
        ∧ live s ref ∧ markAsFree = true
        ∧ (GenerationNumber ref < maxGeneration)%nat
        ∧ (ObjectNumber ref, S (GenerationNumber ref)) ∉ m_FreeObjects s)).
Proof.
  unfold RemoveObject, live.
  destruct (m_Objects s !! ref) as [obj |] eqn:Hobj; simpl.
  - destruct markAsFree; simpl; [| by auto].
    unfold SafeAddFreeObject.
    destruct (Nat.ltb_spec (GenerationNumber ref) maxGeneration);
      simpl; [| by auto].
    case_bool_decide; [by auto |].
    split; [done |]. split; [done |]. right. by eauto 10.
  - split; [by rewrite delete_id | by auto].
Qed.

Lemma store_inv_empty : store_inv empty_store.
Proof.
  split; unfold live; simpl.
  - intros ref [? Hl]. by rewrite lookup_empty in Hl.
  - by intros ref ?%elem_of_nil.
  - intros r1 r2 [? Hl]. by rewrite lookup_empty in Hl.
  - by intros r1 r2 ?%elem_of_nil.
  - constructor.
Qed.

Lemma CreateObject_inv (variant : PdfVariant) (s : PdfIndirectObjectList) :
  store_inv s → store_inv (CreateObject variant s).2.
Proof.
  intros [Hlb Hfb Hlu Hfl Hnd].
  pose proof (CreateObject_cases variant s) as Hc.
  destruct (CreateObject variant s) as [ref s']. simpl.
  destruct Hc as [Hobjs Hc].
  assert (Hlive : ∀ r, live s' r ↔ r = ref ∨ live s r).
  { intros r. unfold live. rewrite Hobjs, lookup_insert_is_Some. split.
    - intros [<- | [_ Hr]]; auto.
    - intros [-> | Hr]; [by left |].
      destruct (decide (ref = r)); [by left | by right]. }
  destruct Hc as [(_ & Hfree & Hcount) | (_ & Hfree & -> & Hcount)].
  - rewrite Hfree in Hfb, Hfl, Hnd.
    rewrite fmap_cons in Hnd. apply NoDup_cons in Hnd as [Hnotin Hnd].
    split.
    + intros r [-> | Hr]%Hlive; [lia |]. specialize (Hlb r Hr). lia.
    + intros r Hr. specialize (Hfb r ltac:(by right)). lia.
    + intros r1 r2 [-> | H1]%Hlive [-> | H2]%Hlive Heq; auto.
      * exfalso. by apply (Hfl ref r2); [left | |].
      * exfalso. by apply (Hfl ref r1); [left | |].
    + intros r1 r2 Hr1 [-> | H2]%Hlive.
      * intros Heq. apply Hnotin. rewrite <- Heq.
        by apply list_elem_of_fmap_2.
      * apply Hfl; [by right | done].
    + done.
  - split; rewrite ?Hcount, ?Hfree.
    + intros r [-> | Hr]%Hlive; [done |]. specialize (Hlb r Hr). lia.
    + intros r Hr. specialize (Hfb r Hr). lia.
    + intros r1 r2 [-> | H1]%Hlive [-> | H2]%Hlive Heq; auto.
      * specialize (Hlb r2 H2). unfold ObjectNumber in *. simpl in *. lia.
      * specialize (Hlb r1 H1). unfold ObjectNumber in *. simpl in *. lia.
    + intros r1 r2 Hr1 [-> | H2]%Hlive; [| by apply Hfl].
      specialize (Hfb r1 Hr1). unfold ObjectNumber in *. simpl in *. lia.
    + done.
Qed.

Lemma RemoveObject_inv (ref : PdfReference) (markAsFree : bool)
    (s : PdfIndirectObjectList) :
  store_inv s → store_inv (RemoveObject maxGeneration ref markAsFree s).2.
Proof.
  intros [Hlb Hfb Hlu Hfl Hnd].
  pose proof (RemoveObject_cases ref markAsFree s) as Hc.
  destruct (RemoveObject maxGeneration ref markAsFree s) as [? s'].
  simpl in *. destruct Hc as (Hobjs & Hcount & Hc).
  assert (Hlive : ∀ r, live s' r ↔ r ≠ ref ∧ live s r).
  { intros r. unfold live. rewrite Hobjs, lookup_delete_is_Some.
    split; intros [Hne Hr]; auto. }
  destruct Hc as [Hfree | (Hfree & Href & _ & _ & _)].
  - split; rewrite ?Hfree, ?Hcount; auto.
    + intros r [_ Hr]%Hlive. auto.
    + intros r1 r2 [_ H1]%Hlive [_ H2]%Hlive. auto.
    + intros r1 r2 Hr1 [_ H2]%Hlive. auto.
  - split; rewrite ?Hfree, ?Hcount.
    + intros r [_ Hr]%Hlive. auto.
    + intros r [Hr | ->%list_elem_of_singleton]%elem_of_app; auto.
      by apply (Hlb ref).
    + intros r1 r2 [_ H1]%Hlive [_ H2]%Hlive. auto.
    + intros r1 r2 [Hr1 | ->%list_elem_of_singleton]%elem_of_app
        [Hne H2]%Hlive; [by auto |].
      intros Heq. apply Hne. by apply Hlu.
    + rewrite fmap_app. apply NoDup_app. split; [done |]. split.
      * intros num Hnum Hin. simpl in Hin.
        apply list_elem_of_singleton in Hin as ->.
        apply list_elem_of_fmap in Hnum as (r & Heq & Hr).
        by apply (Hfl r ref).
      * apply NoDup_singleton.
Qed.

Lemma SetCanReuseObjectNumbers_inv (b : bool) (s : PdfIndirectObjectList) :
  store_inv s → store_inv (SetCanReuseObjectNumbers b s).
Proof.
  intros [Hlb Hfb Hlu Hfl Hnd].
  destruct b; split; unfold live in *; simpl; auto.
  - by intros ref ?%elem_of_nil.
  - by intros r1 r2 ?%elem_of_nil.
  - constructor.
Qed.

Lemma step_inv (c : call) (s : PdfIndirectObjectList) :
  store_inv s → store_inv (step maxGeneration c s).2.
Proof.
  intros Hinv. destruct c as [variant | ref markAsFree | b]; simpl.
  - pose proof (CreateObject_inv variant s Hinv).
    by destruct (CreateObject variant s).
  - by apply RemoveObject_inv.
  - by apply SetCanReuseObjectNumbers_inv.
Qed.

Lemma run_inv (cs : list call) (s : PdfIndirectObjectList) :
  store_inv s → store_inv (run maxGeneration cs s).2.
Proof.
  revert s. induction cs as [| c cs IH]; intros s Hinv; [done |].
  simpl. pose proof (step_inv c s Hinv) as Hstep.
  destruct (step maxGeneration c s) as [ids s1]. simpl in Hstep.
  specialize (IH s1 Hstep).
  by destruct (run maxGeneration cs s1) as [ids' s2].
Qed.

(** A retired number stays retired, and no call hands it out. *)
Lemma step_retired (num : nat) (c : call) (s : PdfIndirectObjectList) :
  retired num s →
  retired num (step maxGeneration c s).2
  ∧ ∀ ref, ref ∈ (step maxGeneration c s).1 → ObjectNumber ref ≠ num.
Proof.
  intros (Hbound & Hlive & Hfree).
  destruct c as [variant | ref markAsFree | b]; simpl.
  - pose proof (CreateObject_cases variant s) as Hc.
    destruct (CreateObject variant s) as [ref s']. simpl.
    destruct Hc as [Hobjs Hc].
    assert (Hfresh : ObjectNumber ref ≠ num).
    { destruct Hc as [(_ & Hpool & _) | (_ & _ & -> & _)].
      - apply Hfree. rewrite Hpool. by left.
      - unfold ObjectNumber. simpl. lia. }
    split; [| by intros ? ->%list_elem_of_singleton].
    split; [| split].
    + destruct Hc as [(_ & _ & ->) | (_ & _ & _ & ->)]; lia.
    + intros r. unfold live. rewrite Hobjs, lookup_insert_is_Some.
      intros [<- | [_ Hr]]; [done | by apply Hlive].
    + intros r Hr. apply Hfree.
      destruct Hc as [(_ & -> & _) | (_ & <- & _)]; [by right | done].
  - pose proof (RemoveObject_cases ref markAsFree s) as Hc.
    destruct (RemoveObject maxGeneration ref markAsFree s) as [? s'].
    simpl in *. destruct Hc as (Hobjs & Hcount & Hc).
    split; [| by intros ? ?%elem_of_nil].
    split; [| split].
    + by rewrite Hcount.
    + intros r. unfold live. rewrite Hobjs, lookup_delete_is_Some.
      intros [_ Hr]. by apply Hlive.
    + intros r Hr.
      destruct Hc as [Hpool | (Hpool & Href & _)]; rewrite Hpool in Hr.
      * by apply Hfree.
      * apply elem_of_app in Hr as [Hr | ->%list_elem_of_singleton];
          [by apply Hfree | by apply (Hlive ref)].
  - split; [| by intros ? ?%elem_of_nil].
    split; [done |]. split; [done |].
    simpl. destruct b; [done | by intros ? ?%elem_of_nil].
Qed.

Lemma run_retired (num : nat) (cs : list call) (s : PdfIndirectObjectList) :
  retired num s →
  ∀ ref, ref ∈ (run maxGeneration cs s).1 → ObjectNumber ref ≠ num.
Proof.
  revert s. induction cs as [| c cs IH]; intros s Hret ref; simpl.
  { by intros ?%elem_of_nil. }
  destruct (step_retired num c s Hret) as [Hret' Hids].
  destruct (step maxGeneration c s) as [ids s1]. simpl in *.
  specialize (IH s1 Hret' ref).
  destruct (run maxGeneration cs s1) as [ids' s2]. simpl in *.
  intros [Hin | Hin]%elem_of_app; auto.
Qed.

(** Removing an object whose generation has reached the maximum retires
    its number. *)
Lemma RemoveObject_retires (num gen : nat) (s : PdfIndirectObjectList) :
  store_inv s →
  live s (num, gen) →
  (maxGeneration ≤ gen)%nat →
  retired num (RemoveObject maxGeneration (num, gen) true s).2.
Proof.
  intros [Hlb Hfb Hlu Hfl Hnd] Hlive Hmax.
  pose proof (RemoveObject_cases (num, gen) true s) as Hc.
  destruct (RemoveObject maxGeneration (num, gen) true s) as [? s'].
  simpl in *. destruct Hc as (Hobjs & Hcount & Hc).
  destruct Hc as [Hpool | (_ & _ & _ & Hlt & _)];
    [| unfold GenerationNumber in Hlt; simpl in Hlt; lia].
  split; [| split].
  - rewrite Hcount. by apply (Hlb (num, gen)).
  - intros r. unfold live. rewrite Hobjs, lookup_delete_is_Some.
    intros [Hne Hr] Heq. apply Hne. symmetry. by apply Hlu.
  - intros r Hr Heq. rewrite Hpool in Hr. by apply (Hfl r (num, gen)).
Qed.

(** From the store that holds one object, of number 1 and generation
    [gen], with an empty free pool and the high-water mark 1, the rounds
    hand out the next generations of number 1 up to the maximum, and then
    number 2. *)
Lemma churn_ids (rounds : nat) :
  ∀ (gen : nat) (obj : PdfObject) (unavailable : gset nat),
    (gen + rounds ≤ S maxGeneration)%nat →
    (run maxGeneration (churn gen rounds)
       {| m_CanReuseObjectNumbers := true;
          m_Objects := {[(1, gen)%nat := obj]};
          m_ObjectCount := 1;
          m_FreeObjects := [];
          m_UnavailableObjects := unavailable |}).1
    = (λ g, if (g <? maxGeneration)%nat then (1, S g)%nat else (2, 0)%nat)
      <$> seq gen rounds.
Proof.
  induction rounds as [| rounds IH]; intros gen obj unavailable Hgen;
    [done |].
  cbn [churn seq fmap list_fmap run step].
  unfold RemoveObject. cbn [m_Objects].
  rewrite lookup_singleton_eq. cbn [snd].
  unfold SafeAddFreeObject. cbn [GenerationNumber ObjectNumber fst snd].
  destruct (Nat.ltb_spec gen maxGeneration) as [Hlt | Hge].
  - unfold AddFreeObject, CreateObject, getNextFreeObject, addNewObject,
      TryIncrementObjectCount.
    cbn [m_FreeObjects].
    rewrite (bool_decide_eq_false_2 _ (not_elem_of_nil _)).
    cbn. rewrite delete_singleton_eq, insert_empty.
    specialize (IH (S gen) {| m_Variant := VNull; m_Stream := None |}
                  unavailable ltac:(lia)).
    destruct (run maxGeneration (churn (S gen) rounds) _) as [ids s'].
    simpl in *. by rewrite IH.
  - assert (rounds = 0%nat) as -> by lia.
    unfold CreateObject, getNextFreeObject. by cbn.
Qed.

(** C9. [CreateObject] takes the head of the free pool when reuse is
    enabled and the pool is not empty, and otherwise the number
    [objectCount + 1] with generation 0.  On the empty store two calls yield
    (1,0) and (2,0); after (1,0) is removed and marked free the next call
    yields (1,1) (unless generation 0 is the maximum already); after
    [maxGeneration + 1] rounds of removal and creation the ids handed out
    were (1,0), (1,1), ..., (1,maxGeneration) and then (2,0); and once an
    object is removed whose generation has reached the maximum, no later
    call yields its number again. *)
Theorem create_object_allocation :
  (∀ variant s,
     (CreateObject variant s).1
     = match m_CanReuseObjectNumbers s, m_FreeObjects s with
       | true, ref :: _ => ref
       | _, _ => (S (m_ObjectCount s), 0%nat)
       end
     ∧ m_FreeObjects (CreateObject variant s).2
       = match m_CanReuseObjectNumbers s, m_FreeObjects s with
         | true, _ :: rest => rest
         | _, _ => m_FreeObjects s
         end)
  ∧ (∀ v1 v2,
       (run maxGeneration [CallCreateObject v1; CallCreateObject v2]
          empty_store).1
       = [(1, 0)%nat; (2, 0)%nat])
  ∧ (∀ v1 v2,
       (run maxGeneration
          [CallCreateObject v1; CallRemoveObject (1, 0)%nat true;
           CallCreateObject v2] empty_store).1
       = [(1, 0)%nat;
          if (0 <? maxGeneration)%nat then (1, 1)%nat else (2, 0)%nat])
  ∧ (∀ v,
       (run maxGeneration
          (CallCreateObject v :: churn 0 (S maxGeneration)) empty_store).1
       = (1, 0)%nat
         :: ((λ g, (1, S g)%nat) <$> seq 0 maxGeneration) ++ [(2, 0)%nat])
  ∧ (∀ cs num gen cs',
       let s := (run maxGeneration cs empty_store).2 in
       live s (num, gen) →
       (maxGeneration ≤ gen)%nat →
       ∀ ref,
         ref ∈ (run maxGeneration cs'
                  (RemoveObject maxGeneration (num, gen) true s).2).1 →
         ObjectNumber ref ≠ num).
Proof.
  split; [| split; [| split; [| split]]].
  - intros variant s. unfold CreateObject, getNextFreeObject.
    by destruct (m_CanReuseObjectNumbers s), (m_FreeObjects s).
  - intros v1 v2. by vm_compute.
  - intros v1 v2.
    assert (Hrun : ∀ m,
      (run m [CallCreateObject v1; CallRemoveObject (1, 0)%nat true;
              CallCreateObject v2] empty_store).1
      = [(1, 0)%nat; if (0 <? m)%nat then (1, 1)%nat else (2, 0)%nat]).
    { intros [| m]; by vm_compute. }
    by apply Hrun.
  - intros v.
    pose proof (churn_ids (S maxGeneration) 0
                  {| m_Variant := v; m_Stream := None |} ∅ ltac:(lia))
      as Hids.
    remember (churn 0 (S maxGeneration)) as cs eqn:Hcs.
    cbn [run step].
    unfold CreateObject, getNextFreeObject, addNewObject,
      TryIncrementObjectCount, empty_store.
    cbn. rewrite insert_empty.
    destruct (run maxGeneration cs _) as [ids s'].
    cbn [fst] in Hids. cbn [fst app]. f_equal. rewrite Hids.
    rewrite seq_S, fmap_app. cbn [fmap list_fmap Nat.add].
    rewrite Nat.ltb_irrefl. f_equal.
    apply list_fmap_ext. intros i g Hg.
    apply lookup_seq in Hg as [-> Hi]. simpl.
    by destruct (Nat.ltb_spec i maxGeneration); [| lia].
  - intros cs num gen cs' s Hlive Hgen.
    apply run_retired, RemoveObject_retires; [| done | done].
    apply run_inv, store_inv_empty.
Qed.

End Allocation.

Lemma create_object_allocation_witness :
  let s :=
    (run 2 (CallCreateObject VNull :: churn 0 2) empty_store).2 in
  live s (1, 2)%nat
  ∧ (2 ≤ 2)%nat
  ∧ ∀ ref,
      ref ∈ (run 2 [CallCreateObject VNull; CallCreateObject VNull]
               (RemoveObject 2 (1, 2)%nat true s).2).1 →
      ObjectNumber ref ≠ 1%nat.
Proof.
  intros s.
  assert (Hlive : live s (1, 2)%nat) by (by eexists; vm_compute).
  split; [exact Hlive |]. split; [lia |].
  destruct (create_object_allocation 2) as (_ & _ & _ & _ & Hretire).
  apply (Hretire (CallCreateObject VNull :: churn 0 2) 1%nat 2%nat
           [CallCreateObject VNull; CallCreateObject VNull]);
    [exact Hlive | lia].
Defined.

Example retired_number_is_skipped :
  (run 2 (CallCreateObject VNull :: churn 0 3
          ++ [CallCreateObject VNull; CallRemoveObject (2, 0)%nat true;
              CallCreateObject VNull]) empty_store).1
  = [(1, 0)%nat; (1, 1)%nat; (1, 2)%nat; (2, 0)%nat; (3, 0)%nat;
     (2, 1)%nat].
Proof. by vm_compute. Qed.

(** ** The indirect object list: garbage collection *)

(** Induction on variants that reaches the elements of arrays and
    dictionaries. *)
Lemma PdfVariant_nested_ind (P : PdfVariant → Prop) :
  P VUnknown →
  (∀ b, P (VBool b)) →
  (∀ n, P (VNumber n)) →
  (∀ d, P (VReal d)) →
  (∀ s, P (VString s)) →
  (∀ n, P (VName n)) →
  (∀ a, Forall P a → P (VArray a)) →
  (∀ d, Forall (λ kv, P kv.2) d → P (VDictionary d)) →
  P VNull →
  (∀ r, P (VReference r)) →
  (∀ d, P (VRawData d)) →
  ∀ v, P v.
Proof.
  intros HU HB HN HR HS HNa HA HD HNu HRe HRa.
  fix IH 1.
  intros [| b | n | d | s | n | a | d | | r | d];
    [exact HU | apply HB | apply HN | apply HR | apply HS | apply HNa
    | | | exact HNu | apply HRe | apply HRa].
  - apply HA. revert a. fix IHa 1. intros [| x a]; constructor.
    + apply IH.
    + apply IHa.
  - apply HD. revert d. fix IHd 1. intros [| [k x] d]; constructor.
    + apply IH.
    + apply IHd.
Qed.

Lemma fold_left_flat_map {A B C} (f : A → B → A) (g : C → list B)
    (l : list C) (a : A) :
  fold_left f (flat_map g l) a
  = fold_left (λ acc x, fold_left f (g x) acc) l a.
Proof.
  revert a. induction l as [| x l IH]; intros a; simpl; [done |].
  by rewrite fold_left_app, IH.
Qed.

Lemma fold_left_ext_Forall {A B} (f g : A → B → A) (l : list B) (a : A) :
  Forall (λ x, ∀ acc, f acc x = g acc x) l →
  fold_left f l a = fold_left g l a.
Proof.
  intros Hl. revert a. induction Hl as [| x l Hx _ IH]; intros a; simpl;
    [done |].
  by rewrite Hx, IH.
Qed.

(** The marking of a value visits its nested references in order. *)
Lemma dependencies_in_fold
    (follow : PdfReference → gset PdfReference → gset PdfReference)
    (v : PdfVariant) (visited : gset PdfReference) :
  dependencies_in follow v visited
  = fold_left (visit_ref follow) (references v) visited.
Proof.
  revert visited. pattern v. apply PdfVariant_nested_ind; clear v;
    try (intros; reflexivity).
  - intros a IH visited. simpl.
    rewrite fold_left_flat_map. apply fold_left_ext_Forall.
    eapply Forall_impl; [exact IH |]. simpl. auto.
  - intros d IH visited. simpl.
    rewrite fold_left_flat_map. apply fold_left_ext_Forall.
    eapply Forall_impl; [exact IH |]. intros [k x]. simpl. auto.
Qed.

Section Marking.
Variable objects : gmap PdfReference PdfObject.

Lemma GetObjectDependencies_fold (depth : nat) (v : PdfVariant)
    (visited : gset PdfReference) :
  GetObjectDependencies objects depth v visited
  = fold_left (visit_ref (follow_at objects depth)) (references v) visited.
Proof. destruct depth; apply dependencies_in_fold. Qed.

Lemma reachable_rtc (rootValue : PdfVariant) (x : PdfReference) :
  reachable objects rootValue x
  ↔ ∃ r, r ∈ references rootValue ∧ rtc (edge objects) r x.
Proof.
  split.
  - induction 1 as [ref Href | ref obj ref' _ (r & Hr & Hpath) Hobj Href'].
    + exists ref. split; [done | apply rtc_refl].
    + exists r. split; [done |].
      eapply rtc_r; [exact Hpath |]. by exists obj.
  - intros (r & Hr & Hpath). revert x Hpath. apply rtc_ind_r.
    + by apply reachable_root.
    + intros a b _ [obj [Hobj Hb]] IH. by eapply reachable_step.
Qed.

(** Everything marked was visited before or is reached from a reference of
    the list. *)
Lemma marking_sound (depth : nat) (l : list PdfReference)
    (visited : gset PdfReference) (x : PdfReference) :
  x ∈ fold_left (visit_ref (follow_at objects depth)) l visited →
  x ∈ visited ∨ ∃ r, r ∈ l ∧ rtc (edge objects) r x.
Proof.
  revert l visited.
  induction depth as [| depth IHd]; intros l;
    induction l as [| r l IHl]; intros visited; simpl; auto.
  - intros [Hx | (r' & Hr' & Hp)]%IHl.
    + unfold visit_ref in Hx. case_bool_decide; [by left |]. simpl in Hx.
      apply elem_of_union in Hx as [->%elem_of_singleton | Hx];
        [| by left].
      right. exists r. split; [by left | apply rtc_refl].
    + right. exists r'. split; [by right | done].
  - intros [Hx | (r' & Hr' & Hp)]%IHl.
    + unfold visit_ref in Hx. case_bool_decide; [by left |]. simpl in Hx.
      assert (Hnew : x ∈ ({[r]} ∪ visited : gset PdfReference) →
                     x ∈ visited ∨ ∃ r', r' ∈ r :: l ∧ rtc (edge objects) r' x).
      { intros [->%elem_of_singleton | Hv]%elem_of_union; [| by left].
        right. exists r. split; [by left | apply rtc_refl]. }
      destruct (objects !! r) as [obj |] eqn:Hobj; [| by apply Hnew].
      rewrite GetObjectDependencies_fold in Hx.
      apply IHd in Hx as [Hx | (r' & Hr' & Hp)]; [by apply Hnew |].
      right. exists r. split; [by left |].
      eapply rtc_l; [| exact Hp]. by exists obj.
    + right. exists r'. split; [by right | done].
Qed.

Lemma visit_ref_complete (depth : nat) (visited : gset PdfReference)
    (r : PdfReference) :
  match depth with O => True | S depth' => complete_at objects depth' end →
  (size (dom objects ∖ visited) ≤ depth)%nat →
  let marked := visit_ref (follow_at objects depth) visited r in
  visited ⊆ marked ∧ r ∈ marked ∧ closed_from objects visited marked.
Proof.
  intros Hdeeper Hsize. unfold visit_ref. case_bool_decide as Hin; simpl.
  { split; [done |]. split; [done |]. by intros x y Hx Hnx. }
  assert (Hleaf : objects !! r = None →
    visited ⊆ {[r]} ∪ visited ∧ r ∈ ({[r]} ∪ visited : gset PdfReference)
    ∧ closed_from objects visited ({[r]} ∪ visited)).
  { intros Hnone. split; [set_solver |]. split; [set_solver |].
    intros x y Hx Hnx (obj & Hobj & _).
    assert (x = r) as -> by set_solver. congruence. }
  destruct depth as [| depth].
  - apply Hleaf. apply not_elem_of_dom. intros Hdom.
    assert (Hempty : dom objects ∖ visited ≡ ∅).
    { apply size_empty_inv. lia. }
    set_solver.
  - simpl. destruct (objects !! r) as [obj |] eqn:Hobj; [| by apply Hleaf].
    rewrite GetObjectDependencies_fold.
    assert (Hdom : r ∈ dom objects) by (apply elem_of_dom; eauto).
    destruct (Hdeeper (references (m_Variant obj)) ({[r]} ∪ visited))
      as (Hsub & Hrefs & Hclosed).
    { replace (dom objects ∖ ({[r]} ∪ visited))
        with ((dom objects ∖ visited) ∖ {[r]}) by set_solver.
      rewrite size_difference by set_solver. rewrite size_singleton. lia. }
    split; [set_solver |]. split; [set_solver |].
    intros x y Hx Hnx Hedge.
    destruct (decide (x = r)) as [-> | Hne].
    + destruct Hedge as (obj' & Hobj' & Hy).
      apply Hrefs. congruence.
    + apply (Hclosed x y); [done | set_solver | done].
Qed.

Lemma marking_complete (depth : nat) : complete_at objects depth.
Proof.
  induction depth as [depth IHd] using lt_wf_ind.
  assert (Hdeeper : match depth with O => True | S d => complete_at objects d end).
  { destruct depth; [done |]. apply IHd. lia. }
  intros l. induction l as [| r l IHl]; intros visited Hsize; simpl.
  { split; [done |]. split; [by intros r ?%elem_of_nil |].
    by intros x y Hx Hnx. }
  destruct (visit_ref_complete depth visited r Hdeeper Hsize)
    as (Hsub1 & Hr1 & Hclosed1).
  destruct (IHl (visit_ref (follow_at objects depth) visited r))
    as (Hsub & Hl & Hclosed).
  { etrans; [| exact Hsize]. apply subseteq_size. set_solver. }
  split; [set_solver |]. split.
  - intros r' [-> | Hr']%elem_of_cons; [set_solver | by apply Hl].
  - intros x y Hx Hnx Hedge.
    destruct (decide (x ∈ visit_ref (follow_at objects depth) visited r)) as [H1 | H1].
    + apply Hsub. by apply (Hclosed1 x y).
    + by apply (Hclosed x y).
Qed.

(** The marked set of [CollectGarbage] is the set of reachable ids. *)
Lemma marked_reachable (rootValue : PdfVariant) (x : PdfReference) :
  x ∈ GetObjectDependencies objects (size objects) rootValue ∅
  ↔ reachable objects rootValue x.
Proof.
  rewrite GetObjectDependencies_fold, reachable_rtc. split.
  - intros [Hx | Hx]%marking_sound; [set_solver | done].
  - intros (r & Hr & Hpath).
    destruct (marking_complete (size objects) (references rootValue) ∅)
      as (_ & Hrefs & Hclosed).
    { rewrite difference_empty_L, size_dom. done. }
    revert x Hpath. apply rtc_ind_r; [by apply Hrefs |].
    intros b c _ Hbc IH. apply (Hclosed b c); [done | set_solver | done].
Qed.

End Marking.

(** C10. [CollectGarbage] keeps exactly the live objects that are reachable
    from the root value through references nested in arrays and
    dictionaries, or listed in [notDelete]; it removes exactly the live
    objects that are neither.  In the store {1,2,3} whose object 1 refers to
    object 2, collecting from a reference to object 1 removes object 3
    alone, and the size drops by one. *)
Theorem collect_garbage_sweeps_unreachable :
  (∀ rootValue notDelete s ref obj,
     m_Objects (CollectGarbage rootValue notDelete s) !! ref = Some obj
     ↔ m_Objects s !! ref = Some obj
       ∧ (reachable (m_Objects s) rootValue ref ∨ ref ∈ notDelete))
  ∧ (∀ rootValue notDelete s ref,
       is_Some (m_Objects s !! ref) →
       (m_Objects (CollectGarbage rootValue notDelete s) !! ref = None
        ↔ ¬ reachable (m_Objects s) rootValue ref ∧ ref ∉ notDelete))
  ∧ (let s' := CollectGarbage (VReference (1, 0)%nat) ∅ kids_store in
     m_Objects s' !! (3, 0)%nat = None
     ∧ m_Objects s' !! (1, 0)%nat = m_Objects kids_store !! (1, 0)%nat
     ∧ m_Objects s' !! (2, 0)%nat = m_Objects kids_store !! (2, 0)%nat
     ∧ GetSize kids_store = 3%nat
     ∧ GetSize s' = (GetSize kids_store - 1)%nat).
Proof.
  assert (Hkeep : ∀ rootValue notDelete s ref obj,
     m_Objects (CollectGarbage rootValue notDelete s) !! ref = Some obj
     ↔ m_Objects s !! ref = Some obj
       ∧ (reachable (m_Objects s) rootValue ref ∨ ref ∈ notDelete)).
  { intros rootValue notDelete s ref obj. unfold CollectGarbage. simpl.
    rewrite map_lookup_filter_Some. simpl. by rewrite marked_reachable. }
  split; [exact Hkeep |]. split.
  - intros rootValue notDelete s ref [obj Hobj].
    rewrite eq_None_not_Some. unfold is_Some. split.
    + intros Hgone. split.
      * intros Hreach. apply Hgone. exists obj. apply Hkeep. auto.
      * intros Hnd. apply Hgone. exists obj. apply Hkeep. auto.
    + intros [Hreach Hnd] [obj' [_ [? | ?]]%Hkeep]; auto.
  - by vm_compute.
Qed.

(** ** PdfVariant: direct accessors, mutators and type names *)

Section MoreAccessors.
Context `{env : PdfEnv}.


(** X2. Every mutator succeeds exactly on the tags of its family
    ([SetNumber] and [SetReal] on both numeric tags), raises
    [InvalidDataType] on the others, and never changes the tag. *)
Theorem mutators_contract :
  set_contract SetBool IsBool
  ∧ set_contract SetNumber IsNumberOrReal
  ∧ set_contract SetReal IsNumberOrReal
  ∧ set_contract SetName IsName
  ∧ set_contract SetString IsString
  ∧ set_contract SetReference IsReference.
Proof. repeat split; intros x v; destruct v; simpl; eauto. Qed.

(** X3. What a mutator stored is what the strict accessor of the same type
    reads back. *)
Theorem set_then_get (v v' : PdfVariant) :
  (∀ b, SetBool b v = Ok v' → GetBool v' = Ok b)
  ∧ (∀ n, IsNumber v = true → SetNumber n v = Ok v' → GetNumber v' = Ok n)
  ∧ (∀ d, IsRealStrict v = true → SetReal d v = Ok v' →
          GetRealStrict v' = Ok d)
  ∧ (∀ n, SetName n v = Ok v' → GetName v' = Ok n)
  ∧ (∀ s, SetString s v = Ok v' → GetString v' = Ok s)
  ∧ (∀ r, SetReference r v = Ok v' → GetReference v' = Ok r).
Proof.
  unfold SetBool, SetNumber, SetReal, SetName, SetString, SetReference,
    PDFMM_RAISE_ERROR.
  repeat split; intros x; destruct v; simpl; intros;
    unfold mret, result_ret in *; by simplify_eq.
Qed.


(** X5. The flag of every Try accessor is the tag predicate of its family. *)
Theorem try_flags_are_tag_predicates (v : PdfVariant) :
  (∃ out, TryGetBool v = Ok (IsBool v, out))
  ∧ (∃ out, TryGetNumber v = Ok (IsNumber v, out))
  ∧ (∃ out, TryGetNumberLenient v = Ok (IsNumberOrReal v, out))
  ∧ (∃ out, TryGetReal v = Ok (IsNumberOrReal v, out))
  ∧ (∃ out, TryGetRealStrict v = Ok (IsRealStrict v, out))
  ∧ (∃ out, TryGetString v = Ok (IsString v, out))
  ∧ (∃ out, TryGetName v = Ok (IsName v, out))
  ∧ (∃ out, TryGetReference v = Ok (IsReference v, out))
  ∧ (∃ out, TryGetArray v = Ok (IsArray v, out))
  ∧ (∃ out, TryGetDictionary v = Ok (IsDictionary v, out)).
Proof. repeat split; destruct v; eexists; reflexivity. Qed.

End MoreAccessors.
(** X6. Unless its tag is Unknown, a variant satisfies exactly one of the
    ten tag predicates; an Unknown variant satisfies none. *)
Theorem tag_predicates_partition (v : PdfVariant) :
  length (filter (λ b, b = true) (tag_predicates v))
  = if PdfDataType.eqb (m_DataType v) PdfDataType.Unknown then 0%nat
    else 1%nat.
Proof. by destruct v. Qed.

(** X7. The name of the type tells the tag: two variants with the same
    [GetDataTypeString] have the same tag. *)
Theorem GetDataTypeString_injective (v w : PdfVariant) :
  GetDataTypeString v = GetDataTypeString w → m_DataType v = m_DataType w.
Proof.
  unfold GetDataTypeString.
  destruct (m_DataType v), (m_DataType w); simpl; intros H;
    first [reflexivity | discriminate H].
Qed.

Lemma GetDataTypeString_injective_witness :
  GetDataTypeString (VNumber 1) = GetDataTypeString (VNumber 2)
  ∧ m_DataType (VNumber 1) = m_DataType (VNumber 2).
Proof.
  split; [reflexivity |].
  apply (GetDataTypeString_injective (VNumber 1) (VNumber 2)). reflexivity.
Defined.

(** ** Equality of variants: symmetry, copies and self-comparison *)

(** Equality of doubles: symmetric, and reflexive except on NaN. *)
Lemma SFcompare_Eq_sym (f1 f2 : spec_float) :
  SFcompare f1 f2 = Some Eq → SFcompare f2 f1 = Some Eq.
Proof.
  destruct f1 as [s1 | s1 | | s1 m1 e1], f2 as [s2 | s2 | | s2 m2 e2];
    simpl; try done;
    try (by destruct s1); try (by destruct s2); try (by destruct s1, s2).
  destruct s1, s2; try done.
  all: destruct (Z.compare_spec e1 e2) as [-> | |]; try done.
  all: rewrite Z.compare_refl; intros H.
  all: assert (Pos.compare_cont Eq m1 m2 = Eq) as ->%Pos.compare_eq
         by (by destruct (Pos.compare_cont Eq m1 m2)).
  all: by rewrite Pos.compare_cont_refl.
Qed.

Lemma float_eqb_sym (x y : float) : PrimFloat.eqb x y = PrimFloat.eqb y x.
Proof.
  rewrite !FloatAxioms.eqb_spec. unfold SFeqb.
  destruct (SFcompare (Prim2SF x) (Prim2SF y)) as [[] |] eqn:Hxy;
    destruct (SFcompare (Prim2SF y) (Prim2SF x)) as [[] |] eqn:Hyx;
    try done.
  all: first [ apply SFcompare_Eq_sym in Hxy; congruence
             | apply SFcompare_Eq_sym in Hyx; congruence ].
Qed.

Lemma float_eqb_refl (x : float) : PrimFloat.eqb x x = negb (is_NaN x).
Proof.
  rewrite FloatAxioms.eqb_spec. unfold SFeqb, is_NaN.
  destruct (Prim2SF x) as [s | s | | s m e]; simpl; try done.
  - by destruct s.
  - by destruct s; rewrite Z.compare_refl, Pos.compare_cont_refl.
Qed.

Lemma PdfReference_eqb_sym (a b : PdfReference) :
  PdfReference_eqb a b = PdfReference_eqb b a.
Proof.
  unfold PdfReference_eqb.
  by rewrite (Nat.eqb_sym (ObjectNumber a)), (Nat.eqb_sym (GenerationNumber a)).
Qed.

Lemma PdfReference_eqb_refl (a : PdfReference) : PdfReference_eqb a a = true.
Proof. unfold PdfReference_eqb. by rewrite !Nat.eqb_refl. Qed.

Section MoreEquality.
Context `{env : PdfEnv}.

(** X8. On Bool, Number, Real and Reference operands [operator==] is
    symmetric: whichever of the two is on the left, the answer is the same. *)
Theorem operator_eq_symmetric_on_scalars (h : heap) (a b : addr) :
  is_scalar (h a) = true →
  is_scalar (h b) = true →
  operator_eq h a b = operator_eq h b a.
Proof.
  intros Ha Hb. unfold operator_eq.
  rewrite (Nat.eqb_sym b a). destruct (Nat.eqb a b); [done |].
  destruct (h a), (h b); try discriminate; simpl; try done.
  - by destruct b0, b1.
  - by rewrite Z.eqb_sym.
  - by rewrite float_eqb_sym.
  - by rewrite PdfReference_eqb_sym.
Qed.

(** X9. A Null on the left is equal to everything: against a right-hand
    side that is not Null, [Null == R] is true, while [R == Null] is false
    (for every R but a RawData, which raises).  So [operator==] is not
    symmetric. *)
Theorem operator_eq_null_left_equals_all (h : heap) (a b : addr) :
  h a = VNull →
  IsNull (h b) = false →
  operator_eq h a b = Ok true
  ∧ operator_eq h b a
    = if IsRawData (h b) then Raise NotImplemented else Ok false.
Proof.
  intros Ha Hb.
  assert (Hne : Nat.eqb a b = false).
  { apply Nat.eqb_neq. intros ->. by rewrite Ha in Hb. }
  unfold operator_eq. rewrite (Nat.eqb_sym b a), Hne, Ha.
  split; [done |]. by destruct (h b).
Qed.

(** X10. Two distinct objects that hold the same value: [operator==] finds
    them equal when the value is a Bool, a Number, a Reference or Null, and
    a Real that is not NaN; it finds two NaN unequal and two Unknown
    unequal, raises on RawData, and defers to the comparison of the payload
    class otherwise. *)
Theorem operator_eq_on_copies (h : heap) (a b : addr) :
  a ≠ b →
  h b = h a →
  operator_eq h a b
  = match h a with
    | VBool _ | VNumber _ | VReference _ | VNull => Ok true
    | VReal d => Ok (negb (is_NaN d))
    | VUnknown => Ok false
    | VRawData _ => Raise NotImplemented
    | VString s => PdfString_eq s s
    | VName n => PdfName_eq n n
    | VArray x => PdfArray_eq x x
    | VDictionary x => PdfDictionary_eq x x
    end.
Proof.
  intros Hne Hcopy. unfold operator_eq.
  apply Nat.eqb_neq in Hne. rewrite Hne, Hcopy.
  destruct (h a) as [| x | x | x | | | | | | x |]; simpl; try done.
  - by destruct x.
  - by rewrite Z.eqb_refl.
  - by rewrite float_eqb_refl.
  - by rewrite PdfReference_eqb_refl.
Qed.

End MoreEquality.

Lemma operator_eq_symmetric_on_scalars_witness :
  is_scalar (one_and_two 0%nat) = true
  ∧ is_scalar (one_and_two 1%nat) = true
  ∧ @operator_eq sample_env one_and_two 0%nat 1%nat
    = @operator_eq sample_env one_and_two 1%nat 0%nat.
Proof.
  split; [reflexivity |]. split; [reflexivity |].
  apply (@operator_eq_symmetric_on_scalars sample_env one_and_two 0%nat 1%nat);
    reflexivity.
Defined.

Lemma operator_eq_null_left_equals_all_witness :
  null_and_number 0%nat = VNull
  ∧ IsNull (null_and_number 1%nat) = false
  ∧ @operator_eq sample_env null_and_number 0%nat 1%nat = Ok true
  ∧ @operator_eq sample_env null_and_number 1%nat 0%nat = Ok false.
Proof.
  split; [reflexivity |]. split; [reflexivity |].
  apply (@operator_eq_null_left_equals_all sample_env null_and_number
           0%nat 1%nat); reflexivity.
Defined.

Lemma operator_eq_on_copies_witness :
  0%nat ≠ 1%nat
  ∧ sevens 1%nat = sevens 0%nat
  ∧ @operator_eq sample_env sevens 0%nat 1%nat = Ok true.
Proof.
  split; [lia |]. split; [reflexivity |].
  apply (@operator_eq_on_copies sample_env sevens 0%nat 1%nat);
    [lia | reflexivity].
Defined.

Section SelfComparison.
Context `{env : PdfEnv}.

(** X11. A variant compared with itself: [operator==] answers true whatever
    it holds, and [operator!=] answers false for a Bool, a Number, a
    Reference, a Null and a Real that is not NaN; for a NaN and for an
    Unknown both operators answer true, and [operator!=] raises on a
    RawData that [operator==] finds equal. *)
Theorem self_comparison (h : heap) (a : addr) :
  operator_eq h a a = Ok true
  ∧ operator_ne h a a
    = match h a with
      | VBool _ | VNumber _ | VReference _ | VNull => Ok false
      | VReal d => Ok (is_NaN d)
      | VUnknown => Ok true
      | VRawData _ => Raise NotImplemented
      | VString s => PdfString_ne s s
      | VName n => PdfName_ne n n
      | VArray x => PdfArray_ne x x
      | VDictionary x => PdfDictionary_ne x x
      end.
Proof.
  unfold operator_eq, operator_ne. rewrite Nat.eqb_refl. split; [done |].
  destruct (h a) as [| x | x | x | | | | | | x |]; simpl; try done.
  - by destruct x.
  - by rewrite Z.eqb_refl.
  - by rewrite float_eqb_refl, negb_involutive.
  - by rewrite PdfReference_eqb_refl.
Qed.

End SelfComparison.

(** ** Serialization: [ToString] and the two write modes *)

Lemma string_app_empty_r (a : string) : a +:+ "" = a.
Proof.
  unfold String.app. induction a as [| c a IH]; simpl; [done |].
  by rewrite IH.
Qed.

Lemma string_of_list_ascii_app (l1 l2 : list ascii) :
  String.string_of_list_ascii (l1 ++ l2)
  = String.string_of_list_ascii l1 +:+ String.string_of_list_ascii l2.
Proof.
  unfold String.app. induction l1 as [| c l1 IH]; simpl; [done |].
  by rewrite IH.
Qed.

Lemma print_int64_no_leading_dot (n : Z) : no_leading_dot (print_int64 n).
Proof.
  unfold print_int64, NilZero.string_of_int.
  destruct (Z.to_int n) as [u | u]; [| done].
  unfold NilZero.string_of_uint. by destruct u.
Qed.

Lemma ostream_fixed_no_leading_dot `{env : PdfEnv} (d : float) :
  no_leading_dot (ostream_fixed d).
Proof.
  unfold ostream_fixed.
  destruct (Prim2SF d) as [[] | [] | | [] m e]; try done;
    [by destruct NaN_sign |].
  rewrite string_app_empty_l.
  pose proof (print_int64_no_leading_dot
    ((if 0 <=? e then Z.pos m * 2 ^ e * 10 ^ 6
      else round_half_even (Z.pos m * 10 ^ 6) (2 ^ (- e))) / 10 ^ 6)) as H.
  by destruct (print_int64 _).
Qed.

(** The stripped rendering keeps the first character and is a prefix. *)
Lemma compact_real_prefix (copy : string) :
  no_leading_dot copy →
  ∃ rest, copy = compact_real copy +:+ rest ∧ compact_real copy ≠ ""%string.
Proof.
  intros Hhead. unfold compact_real. case_bool_decide as Hdot.
  2: { exists ""%string. rewrite string_app_empty_r. split; [done |].
       by destruct copy. }
  apply string_find_elem_of in Hdot.
  remember (String.list_ascii_of_string copy) as l eqn:Hl.
  assert (Hcopy : copy = String.string_of_list_ascii l).
  { by rewrite Hl, String.string_of_list_ascii_of_string. }
  destruct (strip_trailing_zeros_prefix l) as [zs Hzs].
  destruct (strip_trailing_dot_prefix (strip_trailing_zeros l)) as [zs' Hzs'].
  pose proof (drop_zeros_nonempty (reverse l) "."%char) as Hne.
  destruct (strip_trailing_dot (strip_trailing_zeros l)) as [| c t] eqn:Hs.
  - exfalso. unfold strip_trailing_dot, strip_trailing_zeros in Hs.
    rewrite reverse_involutive in Hs.
    destruct (drop_zeros (reverse l)) as [| c r] eqn:Hr.
    { apply Hne; [by apply elem_of_reverse | done | done]. }
    destruct (Ascii.eqb_spec c ".") as [-> | Hc].
    + apply (f_equal reverse) in Hs. rewrite reverse_involutive in Hs.
      subst r. unfold strip_trailing_zeros in Hzs. rewrite Hr in Hzs.
      rewrite Hzs in Hcopy. subst copy. by simpl in Hhead.
    + rewrite reverse_cons in Hs. by apply app_eq_nil in Hs as [_ ?].
  - exists (String.string_of_list_ascii (zs' ++ zs)).
    split; [| done].
    rewrite <- string_of_list_ascii_app, app_assoc, <- Hzs', <- Hzs.
    exact Hcopy.
Qed.

Section MoreSerialization.
Context `{env : PdfEnv}.

(** The text that [Write] appends for a Bool, Integer, Real or Null. *)
Lemma Write_literal_text (v : PdfVariant) (device : string) (writeMode : Z)
    (encrypt : option PdfEncrypt) (token : string) :
  literal_token (is_compact writeMode) v = Some token →
  Write v device writeMode encrypt
  = Ok (device +:+ leading_space (is_compact writeMode) +:+ token).
Proof.
  destruct v as [| [|] | n | d | | | | | | |]; try discriminate;
    intros [= <-].
  4: apply Write_Real_spec.
  all: unfold Write; rewrite leading_space_written;
    by rewrite <- string_app_assoc.
Qed.

(** X12. For a Bool, Integer, Real or Null, [Write] only appends: the device
    keeps what it held, and the text added does not depend on it; that text
    is what [ToString] returns. *)
Theorem write_appends_what_ToString_returns (v : PdfVariant) (writeMode : Z) :
  is_literal v = true →
  ∃ text,
    ToString v writeMode = Ok text
    ∧ ∀ device encrypt,
        Write v device writeMode encrypt = Ok (device +:+ text).
Proof.
  intros Hlit.
  assert (∃ token, literal_token (is_compact writeMode) v = Some token)
    as [token Htoken].
  { destruct v as [| [] | | | | | | | | |]; try discriminate; eauto. }
  exists (leading_space (is_compact writeMode) +:+ token). split.
  - unfold ToString. by rewrite (Write_literal_text _ _ _ _ token).
  - intros device encrypt. by apply Write_literal_text.
Qed.

(** X13. The compact token of a Real is a non-empty prefix of its clean
    rendering: compact mode only drops characters from the end of the
    fixed-point text, and never drops all of them. *)
Theorem compact_real_is_prefix_of_clean (d : float) (compact clean : Z) :
  is_compact compact = true →
  is_compact clean = false →
  ∃ token rest,
    token ≠ ""%string
    ∧ ToString (VReal d) compact = Ok (" " +:+ token)
    ∧ ToString (VReal d) clean = Ok (token +:+ rest).
Proof.
  intros Hc Hn.
  destruct (compact_real_prefix (ostream_fixed d)
              (ostream_fixed_no_leading_dot d)) as (rest & Hrest & Hne).
  exists (compact_real (ostream_fixed d)), rest.
  split; [done |]. unfold ToString. rewrite !Write_Real_spec, Hc, Hn.
  split; [done |]. simpl. by rewrite <- Hrest.
Qed.

End MoreSerialization.

Lemma write_appends_what_ToString_returns_witness :
  is_literal (VNumber (-42)) = true
  ∧ @ToString sample_env (VNumber (-42)) 1 = Ok " -42"
  ∧ @Write sample_env (VNumber (-42)) "[" 1 None = Ok "[ -42".
Proof.
  split; [reflexivity |].
  destruct (@write_appends_what_ToString_returns sample_env (VNumber (-42)) 1
              eq_refl) as (text & Htext & Hwrite).
  vm_compute in Htext. injection Htext as <-.
  split; [reflexivity | exact (Hwrite "["%string None)].
Defined.

Lemma compact_real_is_prefix_of_clean_witness :
  @is_compact sample_env 1 = true
  ∧ @is_compact sample_env 2 = false
  ∧ ∃ token rest,
      token ≠ ""%string
      ∧ @ToString sample_env (VReal 2.5%float) 1 = Ok (" " +:+ token)
      ∧ @ToString sample_env (VReal 2.5%float) 2 = Ok (token +:+ rest).
Proof.
  split; [reflexivity |]. split; [reflexivity |].
  apply (@compact_real_is_prefix_of_clean sample_env 2.5%float 1 2);
    reflexivity.
Defined.

(** ** The inline image scanner *)

Lemma Resize_length (size : nat) (buffer : list ascii) :
  length (Resize size buffer) = size.
Proof.
  unfold Resize. rewrite length_app, length_take, length_replicate. lia.
Qed.

Lemma Resize_take (n size : nat) (buffer : list ascii) :
  (n ≤ length buffer)%nat →
  take n (Resize size buffer) = take n (take size buffer).
Proof.
  intros Hn. unfold Resize.
  destruct (decide (size ≤ length buffer)%nat) as [Hle | Hgt].
  - replace (size - length buffer)%nat with 0%nat by lia.
    simpl. by rewrite app_nil_r.
  - rewrite (take_ge buffer size) by lia.
    by rewrite take_app_le by lia.
Qed.

Section InlineImageFacts.
Context `{tok : TokenizerEnv}.

Lemma unsigned_small (z : Z) : 0 ≤ z < 2 ^ 32 → unsigned z = z.
Proof. intros Hz. unfold unsigned. by rewrite Z.mod_small. Qed.

Lemma size_t_small (z : Z) : 0 ≤ z < 2 ^ 64 → size_t z = z.
Proof. intros Hz. unfold size_t. by rewrite Z.mod_small. Qed.

Lemma buffer_step (buffer : list ascii) (n : nat) (ch : ascii) :
  buffer ≠ [] →
  (n ≤ length buffer)%nat →
  Z.of_nat n < 2 ^ 32 →
  ∃ buffer',
    store (if Z.of_nat n =? Z.of_nat (length buffer)
           then Resize (Z.to_nat (size_t (Z.of_nat (length buffer) * 2)))
                  buffer
           else buffer) (Z.of_nat n) ch = Ok buffer'
    ∧ take (S n) buffer' = take n buffer ++ [ch]
    ∧ (S n ≤ length buffer')%nat
    ∧ (length buffer ≤ length buffer')%nat.
Proof.
  intros Hne Hle Hsmall.
  assert (0 < length buffer)%nat as Hpos
    by (destruct buffer; [done | simpl; lia]).
  set (grown := if Z.of_nat n =? Z.of_nat (length buffer)
                then Resize (Z.to_nat (size_t (Z.of_nat (length buffer) * 2)))
                       buffer
                else buffer).
  assert ((n < length grown)%nat
          ∧ take n grown = take n buffer
          ∧ (length buffer ≤ length grown)%nat) as (Hlt & Htake & Hlen).
  { subst grown.
    destruct (Z.eqb_spec (Z.of_nat n) (Z.of_nat (length buffer)))
      as [Heq | Hneq].
    - apply Nat2Z.inj in Heq. subst n.
      rewrite size_t_small by lia.
      replace (Z.to_nat (Z.of_nat (length buffer) * 2))
        with (length buffer * 2)%nat by lia.
      rewrite Resize_length. split; [lia |]. split; [| lia].
      rewrite Resize_take by lia.
      by rewrite (take_ge buffer (length buffer * 2)) by lia.
    - split; [lia | done]. }
  exists (<[n := ch]> grown). unfold store.
  destruct (Z.leb_spec 0 (Z.of_nat n)) as [_ | ?]; [| lia].
  destruct (Z.ltb_spec (Z.of_nat n) (Z.of_nat (length grown))) as [_ | ?];
    [| lia].
  simpl. rewrite Nat2Z.id.
  split; [done |]. rewrite length_insert.
  split; [| lia].
  rewrite (take_S_r _ _ ch) by (by apply list_lookup_insert_eq).
  by rewrite take_insert_ge, Htake by lia.
Qed.

Lemma status_seen_E (status : ReadEIStatus) (consumed : list ascii)
    (ch : ascii) :
  status_seen (if Ascii.eqb ch "E" then ReadI else ReadE) (consumed ++ [ch]).
Proof.
  destruct (Ascii.eqb_spec ch "E") as [-> | _]; simpl; [by exists consumed | done].
Qed.

Lemma status_seen_I (consumed : list ascii) (ch : ascii) :
  status_seen ReadI consumed →
  status_seen (if Ascii.eqb ch "I" then ReadWhiteSpace else ReadE)
    (consumed ++ [ch]).
Proof.
  intros [x ->].
  destruct (Ascii.eqb_spec ch "I") as [-> | _]; simpl; [| done].
  exists x. by rewrite <- app_assoc.
Qed.

(** The loop computes what the automaton computes, and never leaves the
    buffer, provided the buffer is not empty and the counter does not wrap
    around. *)
Lemma read_until_EI_scan (device : list ascii) :
  ∀ (buffer : list ascii) (status : ReadEIStatus) (n : nat),
    buffer ≠ [] →
    (n ≤ length buffer)%nat →
    Z.of_nat n + Z.of_nat (length device) < 2 ^ 32 →
    status_seen status (take n buffer) →
    ∃ buffer',
      read_until_EI device buffer status (Z.of_nat n)
      = Ok (String.string_of_list_ascii
              <$> (scan_EI device status (take n buffer)).1,
            (scan_EI device status (take n buffer)).2,
            buffer')
      ∧ (length buffer ≤ length buffer')%nat.
Proof.
  induction device as [| ch device IH]; intros buffer status n
    Hne Hle Hsmall Hseen.
  { exists buffer. by simpl. }
  simpl in Hsmall.
  destruct (buffer_step buffer n ch Hne Hle)
    as (buffer1 & Hstore & Htake & Hle1 & Hlen1); [lia |].
  assert (buffer1 ≠ []) as Hne1 by (intros ->; simpl in Hle1; lia).
  assert (∀ status',
    status_seen status' (take n buffer ++ [ch]) →
    ∃ buffer',
      (buffer ← store (if Z.of_nat n =? Z.of_nat (length buffer)
                       then Resize
                              (Z.to_nat
                                 (size_t (Z.of_nat (length buffer) * 2)))
                              buffer
                       else buffer) (Z.of_nat n) ch;
       read_until_EI device buffer status' (unsigned (Z.of_nat n + 1)))
      = Ok (String.string_of_list_ascii
              <$> (scan_EI device status' (take n buffer ++ [ch])).1,
            (scan_EI device status' (take n buffer ++ [ch])).2,
            buffer')
      ∧ (length buffer ≤ length buffer')%nat) as Hcont.
  { intros status' Hseen'. rewrite Hstore. rewrite <- Htake in *.
    rewrite unsigned_small by lia.
    replace (Z.of_nat n + 1) with (Z.of_nat (S n)) by lia.
    destruct (IH buffer1 status' (S n) Hne1 Hle1) as (buffer' & Hrun & Hlen');
      [lia | done |].
    exists buffer'. split; [exact Hrun | lia]. }
  destruct status; simpl.
  - apply Hcont, status_seen_E; exact ReadE.
  - apply Hcont, status_seen_I, Hseen.
  - destruct (IsWhitespace ch); [| by apply Hcont].
    destruct Hseen as [x Hx].
    assert (n = S (S (length x))) as ->.
    { apply (f_equal length) in Hx.
      rewrite length_take, length_app in Hx. simpl in Hx. lia. }
    exists buffer. split; [| done].
    unfold view_before_EI.
    rewrite unsigned_small by lia.
    replace (Z.of_nat (S (S (length x))) - 2) with (Z.of_nat (length x))
      by lia.
    destruct (Z.leb_spec (Z.of_nat (length x)) (Z.of_nat (length buffer)))
      as [_ | ?]; [| lia].
    simpl. rewrite Nat2Z.id. do 3 f_equal.
    rewrite length_take.
    replace (S (S (length x)) `min` length buffer - 2)%nat
      with (length x) by lia.
    by rewrite take_take, Nat.min_l by lia.
Qed.

Lemma read_until_EI_start (device buffer : list ascii) :
  buffer ≠ [] →
  Z.of_nat (length device) < 2 ^ 32 →
  ∃ buffer',
    read_until_EI device buffer ReadE 0
    = Ok (String.string_of_list_ascii <$> (scan_EI device ReadE []).1,
          (scan_EI device ReadE []).2,
          buffer')
    ∧ (length buffer ≤ length buffer')%nat.
Proof.
  intros Hne Hsmall.
  destruct (read_until_EI_scan device buffer ReadE 0 Hne)
    as (buffer' & Hrun & Hlen); [lia | lia | done |].
  rewrite take_0 in Hrun. by exists buffer'.
Qed.

Lemma scan_EI_sound (device : list ascii) :
  ∀ (status : ReadEIStatus) (consumed data rest : list ascii),
    status_seen status consumed →
    scan_EI device status consumed = (Some data, rest) →
    ∃ ws, IsWhitespace ws = true
          ∧ consumed ++ device = data ++ "E"%char :: "I"%char :: ws :: rest.
Proof.
  induction device as [| ch device IH]; intros status consumed data rest
    Hseen Hscan; [done |].
  assert (∀ status',
    status_seen status' (consumed ++ [ch]) →
    scan_EI device status' (consumed ++ [ch]) = (Some data, rest) →
    ∃ ws, IsWhitespace ws = true
          ∧ consumed ++ ch :: device
            = data ++ "E"%char :: "I"%char :: ws :: rest) as Hcont.
  { intros status' Hseen' Hscan'.
    destruct (IH _ _ _ _ Hseen' Hscan') as (ws & Hws & Heq).
    exists ws. split; [done |]. by rewrite <- Heq, <- app_assoc. }
  destruct status; simpl in Hscan.
  - eapply Hcont; [| exact Hscan]. apply status_seen_E; exact ReadE.
  - eapply Hcont; [| exact Hscan]. by apply status_seen_I.
  - destruct (IsWhitespace ch) eqn:Hws;
      [| exact (Hcont ReadE I Hscan)].
    destruct Hseen as [x ->]. simplify_eq.
    exists ch. split; [done |].
    rewrite length_app. simpl.
    replace (length x + 2 - 2)%nat with (length x) by lia.
    by rewrite take_app_length, <- app_assoc.
Qed.

Lemma scan_EI_exhausted (device : list ascii) :
  ∀ (status : ReadEIStatus) (consumed rest : list ascii),
    scan_EI device status consumed = (None, rest) → rest = [].
Proof.
  induction device as [| ch device IH]; intros status consumed rest Hscan;
    simpl in Hscan; [by simplify_eq |].
  destruct status; [by eapply IH | by eapply IH |].
  destruct (IsWhitespace ch); [done | by eapply IH].
Qed.

Lemma scan_EI_skip (body : list ascii) :
  ∀ (tail consumed : list ascii),
    "E"%char ∉ body →
    scan_EI (body ++ tail) ReadE consumed
    = scan_EI tail ReadE (consumed ++ body).
Proof.
  induction body as [| ch body IH]; intros tail consumed Hno; simpl.
  { by rewrite app_nil_r. }
  apply not_elem_of_cons in Hno as [Hch Hno].
  destruct (Ascii.eqb_spec ch "E") as [-> | _]; [done |].
  rewrite IH by done. by rewrite <- app_assoc.
Qed.

Lemma read_until_EI_sound (device buffer buffer' rest : list ascii)
    (data : PdfData) :
  buffer ≠ [] →
  Z.of_nat (length device) < 2 ^ 32 →
  read_until_EI device buffer ReadE 0 = Ok (Some data, rest, buffer') →
  ∃ ws : ascii,
    IsWhitespace ws = true
    ∧ device
      = String.list_ascii_of_string data
        ++ "E"%char :: "I"%char :: ws :: rest.
Proof.
  intros Hne Hsmall.
  destruct (read_until_EI_start device buffer Hne Hsmall)
    as (buffer1 & -> & _).
  destruct (scan_EI device ReadE []) as [[found |] rest1] eqn:Hscan; simpl;
    [| done].
  intros Hrun. simplify_eq.
  destruct (scan_EI_sound device ReadE [] found rest I Hscan)
    as (ws & Hws & Heq).
  exists ws. split; [done |].
  by rewrite String.list_ascii_of_string_of_list_ascii, <- Heq.
Qed.

Lemma tryReadInlineImgData_true (t t' : PdfContentsTokenizer)
    (data data' : PdfData) :
  tryReadInlineImgData t data = Ok (true, data', t') →
  ∃ (c0 : ascii) (device : list ascii),
    m_device t = c0 :: device
    ∧ read_until_EI device (m_buffer t) ReadE 0
      = Ok (Some data', m_device t', m_buffer t').
Proof.
  unfold tryReadInlineImgData.
  destruct (m_device t) as [| c0 device]; [done |].
  destruct (read_until_EI device (m_buffer t) ReadE 0)
    as [[[[found |] device1] buffer1] | e |] eqn:Hloop; simpl; try done.
  intros Hrun. unfold mret, result_ret in Hrun. simplify_eq.
  exists c0, device. by rewrite Hloop.
Qed.

End InlineImageFacts.

Section InlineImageData.
Context `{tok : TokenizerEnv}.

(** X14. [tryReadInlineImgData] on a tokenizer whose buffer is not empty
    (the constructor allocates [BufferSize] characters) and whose device
    holds no more characters than the 32-bit [readCount] can count always
    returns: it never writes or reads outside [m_buffer], which only grows.
    When it returns false the device has been read to its end and the
    output parameter [data] is untouched. *)
Theorem inline_image_scan_returns (t : PdfContentsTokenizer) (data : PdfData) :
  m_buffer t ≠ [] →
  Z.of_nat (length (m_device t)) ≤ 2 ^ 32 →
  ∃ (found : bool) (data' : PdfData) (t' : PdfContentsTokenizer),
    tryReadInlineImgData t data = Ok (found, data', t')
    ∧ (length (m_buffer t) ≤ length (m_buffer t'))%nat
    ∧ (found = false → data' = data ∧ m_device t' = []).
Proof.
  intros Hne Hsmall. unfold tryReadInlineImgData.
  destruct (m_device t) as [| c0 device] eqn:Hdev.
  { exists false, data, t. by rewrite Hdev. }
  destruct (read_until_EI_start device (m_buffer t) Hne)
    as (buffer' & -> & Hlen); [simpl in Hsmall; lia |].
  destruct (scan_EI device ReadE []) as [[found |] rest] eqn:Hscan; simpl.
  - by eexists true, _, _.
  - eexists false, data, _. split; [done |]. split; [done |].
    intros _. split; [done |]. simpl. by eapply scan_EI_exhausted.
Qed.

(** X15. When [tryReadInlineImgData] returns true, the characters taken
    from the device are: one character (the separator after [ID]), the data
    returned, the letters [EI], and one white-space character; the device is
    left just after that white space. *)
Theorem inline_image_scan_sound (t t' : PdfContentsTokenizer)
    (data data' : PdfData) :
  m_buffer t ≠ [] →
  Z.of_nat (length (m_device t)) ≤ 2 ^ 32 →
  tryReadInlineImgData t data = Ok (true, data', t') →
  ∃ c0 ws : ascii,
    IsWhitespace ws = true
    ∧ m_device t
      = c0 :: String.list_ascii_of_string data'
           ++ "E"%char :: "I"%char :: ws :: m_device t'.
Proof.
  intros Hne Hsmall Hrun.
  apply tryReadInlineImgData_true in Hrun as (c0 & device & Hdev & Hrun).
  rewrite Hdev in Hsmall. simpl in Hsmall.
  apply read_until_EI_sound in Hrun as (ws & Hws & ->); [| done | lia].
  by exists c0, ws.
Qed.

(** X16. Image data that holds no letter [E] is found: on a device holding
    a separator, such data, [EI], a white-space character and anything
    else, [tryReadInlineImgData] returns true with exactly the data and
    leaves the device after the white space. *)
Theorem inline_image_scan_finds_data_without_E (t : PdfContentsTokenizer)
    (data : PdfData) (c0 ws : ascii) (body rest : list ascii) :
  m_buffer t ≠ [] →
  Z.of_nat (length (m_device t)) ≤ 2 ^ 32 →
  "E"%char ∉ body →
  IsWhitespace ws = true →
  m_device t = c0 :: body ++ "E"%char :: "I"%char :: ws :: rest →
  ∃ t' : PdfContentsTokenizer,
    tryReadInlineImgData t data
    = Ok (true, String.string_of_list_ascii body, t')
    ∧ m_device t' = rest.
Proof.
  intros Hne Hsmall Hno Hws Hdev. unfold tryReadInlineImgData.
  rewrite Hdev in *.
  destruct (read_until_EI_start
              (body ++ "E"%char :: "I"%char :: ws :: rest)
              (m_buffer t) Hne)
    as (buffer' & -> & _); [simpl in Hsmall; lia |].
  rewrite scan_EI_skip by done. simpl. rewrite Hws. simpl.
  rewrite !length_app. simpl.
  replace (length body + 1 + 1 - 2)%nat with (length body) by lia.
  rewrite <- app_assoc, take_app_length.
  by eexists.
Qed.

(** X17. Image data that ends in the letter [E] is not found: after the
    [E] of the data the scanner waits for [I], and the [E] of [EI] only
    sends it back to its first state.  With no other [E] before or after,
    [tryReadInlineImgData] reads the device to its end and returns false,
    whatever follows [EEI] (white space included). *)
Theorem inline_image_scan_misses_data_ending_in_E (t : PdfContentsTokenizer)
    (data : PdfData) (c0 : ascii) (body rest : list ascii) :
  m_buffer t ≠ [] →
  Z.of_nat (length (m_device t)) ≤ 2 ^ 32 →
  "E"%char ∉ body →
  "E"%char ∉ rest →
  m_device t = c0 :: body ++ "E"%char :: "E"%char :: "I"%char :: rest →
  ∃ t' : PdfContentsTokenizer,
    tryReadInlineImgData t data = Ok (false, data, t')
    ∧ m_device t' = [].
Proof.
  intros Hne Hsmall Hbody Hrest Hdev. unfold tryReadInlineImgData.
  rewrite Hdev in *.
  destruct (read_until_EI_start
              (body ++ "E"%char :: "E"%char :: "I"%char :: rest)
              (m_buffer t) Hne)
    as (buffer' & -> & _); [simpl in Hsmall; lia |].
  rewrite scan_EI_skip by done. simpl.
  rewrite <- (app_nil_r rest), scan_EI_skip by done. simpl.
  by eexists.
Qed.

End InlineImageData.

Lemma inline_image_scan_returns_witness :
  ∃ (found : bool) (data' : PdfData) (t' : PdfContentsTokenizer),
    @tryReadInlineImgData sample_tok (sample_tokenizer " abcdefgEI Q") "old"
    = Ok (found, data', t')
    ∧ (length (m_buffer (sample_tokenizer " abcdefgEI Q"))
       ≤ length (m_buffer t'))%nat
    ∧ (found = false → data' = "old" ∧ m_device t' = []).
Proof.
  apply (@inline_image_scan_returns sample_tok).
  - discriminate.
  - simpl. lia.
Defined.

Lemma inline_image_scan_sound_witness :
  ∃ c0 ws : ascii,
    @IsWhitespace sample_tok ws = true
    ∧ m_device (sample_tokenizer " abcdefgEI Q")
      = c0 :: String.list_ascii_of_string "abcdefg"
           ++ "E"%char :: "I"%char :: ws :: ["Q"%char].
Proof.
  apply (@inline_image_scan_sound sample_tok
           (sample_tokenizer " abcdefgEI Q")
           {| m_buffer := String.list_ascii_of_string "abcdefgEI"
                          ++ replicate 7 Ascii.zero;
              m_device := ["Q"%char];
              m_readingInlineImgData := true |}
           "old" "abcdefg").
  - discriminate.
  - simpl. lia.
  - reflexivity.
Defined.

Lemma inline_image_scan_finds_data_without_E_witness :
  ∃ t' : PdfContentsTokenizer,
    @tryReadInlineImgData sample_tok (sample_tokenizer " abcdefgEI Q") "old"
    = Ok (true, "abcdefg", t')
    ∧ m_device t' = ["Q"%char].
Proof.
  apply (@inline_image_scan_finds_data_without_E sample_tok
           (sample_tokenizer " abcdefgEI Q") "old" " "%char " "%char
           (String.list_ascii_of_string "abcdefg") ["Q"%char]).
  - discriminate.
  - simpl. lia.
  - intros Hin. repeat (apply elem_of_cons in Hin as [Hin | Hin];
      [discriminate |]). by apply elem_of_nil in Hin.
  - reflexivity.
  - reflexivity.
Defined.

Lemma inline_image_scan_misses_data_ending_in_E_witness :
  ∃ t' : PdfContentsTokenizer,
    @tryReadInlineImgData sample_tok (sample_tokenizer " abEEI Q") "old"
    = Ok (false, "old", t')
    ∧ m_device t' = [].
Proof.
  apply (@inline_image_scan_misses_data_ending_in_E sample_tok
           (sample_tokenizer " abEEI Q") "old" " "%char
           (String.list_ascii_of_string "ab")
           (String.list_ascii_of_string " Q")).
  - discriminate.
  - simpl. lia.
  - intros Hin. repeat (apply elem_of_cons in Hin as [Hin | Hin];
      [discriminate |]). by apply elem_of_nil in Hin.
  - intros Hin. repeat (apply elem_of_cons in Hin as [Hin | Hin];
      [discriminate |]). by apply elem_of_nil in Hin.
  - reflexivity.
Defined.

(** ** Reading the next content *)

Section ContentsTokenizerFacts.
Context `{tok : TokenizerEnv} `{ptok : PdfTokenizerEnv}.

Lemma tryReadNext_returns (t t' : PdfContentsTokenizer) (keyword keyword' : string)
    (variant variant' : PdfVariant) (ok : bool) (type : EPdfContentsType.t) :
  tryReadNext t keyword variant = Returns (ok, type, keyword', variant', t') →
  m_readingInlineImgData t' = m_readingInlineImgData t
  ∧ (ok = false ∧ type = EPdfContentsType.Unknown
     ∨ ok = true ∧ (type = EPdfContentsType.Keyword
                    ∨ type = EPdfContentsType.Variant)).
Proof.
  unfold tryReadNext, of_tokenizer.
  destruct (PdfTokenizer_TryReadNext _ _ _ _)
    as [e | [[[[[gotToken psTokenType] kw] v] device] buffer]]; simpl;
    [done |].
  destruct gotToken, psTokenType; simpl; intros Hrun;
    unfold mret, outcome_ret in Hrun; simplify_eq; naive_solver.
Qed.


Lemma TryReadNextVariant_returns (t t' : PdfContentsTokenizer)
    (variant variant' : PdfVariant) (ok : bool) :
  TryReadNextVariant t variant = Returns (ok, variant', t') →
  m_readingInlineImgData t' = m_readingInlineImgData t.
Proof.
  unfold TryReadNextVariant, of_tokenizer.
  destruct (PdfTokenizer_TryReadNextVariant _ _ _)
    as [e | [[[ok1 v] device] buffer]]; simpl; [done |].
  intros Hrun. unfold mret, outcome_ret in Hrun. by simplify_eq.
Qed.


Lemma TryGetName_returns (v : PdfVariant) :
  ∃ (isName : bool) (key : PdfName), TryGetName v = Ok (isName, key).
Proof. destruct v; by eexists _, _. Qed.

Lemma tryReadInlineImgDict_loop_returns (fuel : nat) :
  ∀ (t t' : PdfContentsTokenizer) (keyword : string) (variant : PdfVariant)
    (dict dict' : PdfDictionary) (ok : bool),
    tryReadInlineImgDict_loop fuel t keyword variant dict
    = Returns (ok, dict', t') →
    m_readingInlineImgData t' = m_readingInlineImgData t.
Proof.
  induction fuel as [| fuel IH]; intros t t' keyword variant dict dict' ok;
    simpl; [done |].
  destruct (tryReadNext t keyword variant)
    as [[[[[ok1 type] kw] v] t1] | e | |] eqn:Hnext; simpl; try done.
  apply tryReadNext_returns in Hnext as [Hflag Htype].
  destruct Htype as [[-> ->] | [-> [-> | ->]]]; simpl.
  - intros Hrun. unfold mret, outcome_ret in Hrun. by simplify_eq.
  - destruct (String.eqb kw "ID"); intros Hrun;
      unfold mret, outcome_ret in Hrun; by simplify_eq.
  - destruct (TryGetName_returns v) as (isName & key & ->). simpl.
    destruct isName; simpl.
    + destruct (TryReadNextVariant t1 v)
        as [[[ok2 v2] t2] | e | |] eqn:Hvar; simpl; try done.
      apply TryReadNextVariant_returns in Hvar.
      destruct ok2.
      * intros Hrun. apply IH in Hrun. congruence.
      * intros Hrun. unfold mret, outcome_ret in Hrun. simplify_eq.
        congruence.
    + intros Hrun. unfold mret, outcome_ret in Hrun. by simplify_eq.
Qed.




Lemma tryReadInlineImgData_returns_flag (t t' : PdfContentsTokenizer)
    (data data' : PdfData) (found : bool) :
  tryReadInlineImgData t data = Ok (found, data', t') →
  m_readingInlineImgData t' = m_readingInlineImgData t.
Proof.
  unfold tryReadInlineImgData.
  destruct (m_device t) as [| c0 device].
  { intros Hrun. unfold mret, result_ret in Hrun. by simplify_eq. }
  destruct (read_until_EI device (m_buffer t) ReadE 0)
    as [[[found1 device1] buffer1] | e |]; simpl; try done.
  destruct found1; intros Hrun; unfold mret, result_ret in Hrun;
    by simplify_eq.
Qed.

(** What a returning call of [TryReadNext] can yield, by the state of
    [m_readingInlineImgData] before it. *)
Lemma TryReadNext_cases (fuel : nat) (t t' : PdfContentsTokenizer)
    (contentsType contentsType' : EPdfContentsType.t)
    (keyword keyword' : string) (variant variant' : PdfVariant) (ok : bool) :
  TryReadNext fuel t contentsType keyword variant
  = Returns (ok, contentsType', keyword', variant', t') →
  m_readingInlineImgData t = true
  ∧ m_readingInlineImgData t' = false
  ∧ (ok = true ∧ contentsType' = EPdfContentsType.ImageData
     ∧ keyword' = EmptyString
     ∧ (∃ data t1, variant' = VRawData data
                   ∧ tryReadInlineImgData t EmptyString = Ok (true, data, t1)
                   ∧ m_device t' = m_device t1)
     ∨ ok = false ∧ contentsType' = EPdfContentsType.Unknown)
  ∨ m_readingInlineImgData t = false
    ∧ (ok = true ∧ contentsType' = EPdfContentsType.ImageDictionary
       ∧ m_readingInlineImgData t' = true
       ∧ (∃ dict, variant' = VDictionary dict)
       ∨ ok = true ∧ m_readingInlineImgData t' = false
         ∧ (contentsType' = EPdfContentsType.Keyword
            ∨ contentsType' = EPdfContentsType.Variant)
       ∨ ok = false ∧ m_readingInlineImgData t' = false
         ∧ contentsType' = EPdfContentsType.Unknown).
Proof.
  unfold TryReadNext.
  destruct (m_readingInlineImgData t) eqn:Hreading.
  - destruct (tryReadInlineImgData t EmptyString)
      as [[[found data] t1] | e |] eqn:Hdata; simpl; try done.
    destruct found; intros Hrun; unfold mret, outcome_ret in Hrun;
      simplify_eq; left; (split; [done |]); (split; [done |]).
    + left. do 3 (split; [done |]). by exists data, t1.
    + by right.
  - destruct (tryReadNext t keyword variant)
      as [[[[[ok1 type] kw] v] t1] | e | |] eqn:Hnext; simpl; try done.
    apply tryReadNext_returns in Hnext as [Hflag Htype].
    rewrite Hreading in Hflag.
    destruct Htype as [[-> ->] | [-> [-> | ->]]]; simpl.
    + intros Hrun. unfold mret, outcome_ret in Hrun. simplify_eq.
      right. split; [done |]. by right; right.
    + destruct (String.eqb kw "BI").
      * unfold tryReadInlineImgDict.
        destruct (tryReadInlineImgDict_loop fuel t1 EmptyString VNull [])
          as [[[ok2 dict] t2] | e | |] eqn:Hdict; simpl; try done.
        apply tryReadInlineImgDict_loop_returns in Hdict.
        destruct ok2; intros Hrun; unfold mret, outcome_ret in Hrun;
          simplify_eq; right; (split; [done |]).
        -- left. do 3 (split; [done |]). by eexists.
        -- right; right. split; [done |]. split; [congruence | done].
      * intros Hrun. unfold mret, outcome_ret in Hrun. simplify_eq.
        right. split; [done |]. right; left. by auto.
    + intros Hrun. unfold mret, outcome_ret in Hrun. simplify_eq.
      right. split; [done |]. right; left. by auto.
Qed.

End ContentsTokenizerFacts.

Section ContentsTokenizerProtocol.
Context `{tok : TokenizerEnv} `{ptok : PdfTokenizerEnv}.

Lemma tryReadInlineImgDict_loop_finishes (fuel : nat) :
  (∀ device buffer keyword variant gotToken psTokenType keyword' variant'
     device' buffer',
     PdfTokenizer_TryReadNext device buffer keyword variant
     = inr (gotToken, psTokenType, keyword', variant', device', buffer') →
     gotToken = true → (length device' < length device)%nat) →
  (∀ device buffer variant ok variant' device' buffer',
     PdfTokenizer_TryReadNextVariant device buffer variant
     = inr (ok, variant', device', buffer') →
     (length device' ≤ length device)%nat) →
  ∀ (t : PdfContentsTokenizer) (keyword : string) (variant : PdfVariant)
    (dict : PdfDictionary),
    (length (m_device t) < fuel)%nat →
    tryReadInlineImgDict_loop fuel t keyword variant dict ≠ Unfinished.
Proof.
  intros Hnext Hvariant.
  induction fuel as [| fuel IH]; intros t keyword variant dict Hfuel;
    [lia |].
  simpl. unfold tryReadNext, of_tokenizer.
  destruct (PdfTokenizer_TryReadNext _ _ _ _)
    as [e | [[[[[gotToken psTokenType] kw] v] device] buffer]] eqn:Htoken;
    simpl; [done |].
  destruct gotToken; simpl; [| done].
  apply Hnext in Htoken; [| done].
  destruct psTokenType; simpl; [by destruct (String.eqb kw "ID") | | done].
  destruct (TryGetName_returns v) as (isName & key & ->). simpl.
  destruct isName; simpl; [| done].
  unfold TryReadNextVariant, of_tokenizer. simpl.
  destruct (PdfTokenizer_TryReadNextVariant _ _ _)
    as [e | [[[ok1 v1] device1] buffer1]] eqn:Hvar; simpl; [done |].
  apply Hvariant in Hvar.
  destruct ok1; [| done].
  apply IH. simpl. lia.
Qed.

(** X18. A call of [TryReadNext] that returns reports failure exactly by
    the content type [Unknown]; it leaves [m_readingInlineImgData] set
    exactly when it yields an [ImageDictionary]; it yields [ImageData]
    exactly when the flag was set before and the data was found.  The
    variant of an [ImageData] is raw data, that of an [ImageDictionary] a
    dictionary. *)
Theorem TryReadNext_result_protocol (fuel : nat) (t t' : PdfContentsTokenizer)
    (contentsType contentsType' : EPdfContentsType.t)
    (keyword keyword' : string) (variant variant' : PdfVariant) (ok : bool) :
  TryReadNext fuel t contentsType keyword variant
  = Returns (ok, contentsType', keyword', variant', t') →
  (ok = false ↔ contentsType' = EPdfContentsType.Unknown)
  ∧ (m_readingInlineImgData t' = true
     ↔ contentsType' = EPdfContentsType.ImageDictionary)
  ∧ (contentsType' = EPdfContentsType.ImageData
     ↔ m_readingInlineImgData t = true ∧ ok = true)
  ∧ (contentsType' = EPdfContentsType.ImageData
     → ∃ data, variant' = VRawData data)
  ∧ (contentsType' = EPdfContentsType.ImageDictionary
     → ∃ dict, variant' = VDictionary dict).
Proof.
  intros Hrun. apply TryReadNext_cases in Hrun.
  destruct Hrun
    as [(Hin & Hout & [(-> & -> & _ & data & t1 & -> & _) | (-> & ->)])
       | (Hin & [(-> & -> & Hout & dict & ->)
                | [(-> & Hout & [-> | ->]) | (-> & Hout & ->)]])];
    rewrite Hin, Hout; repeat split; try done; try (by intros [? ?]);
    try (by eexists).
Qed.


(** X20. Over two consecutive calls of [TryReadNext] that return (the
    second with any values in its output parameters): image data is only
    yielded directly after an image dictionary, and the call after an image
    dictionary yields image data or fails. *)
Theorem image_data_follows_image_dictionary (fuel1 fuel2 : nat)
    (t0 t1 t2 : PdfContentsTokenizer)
    (type0 type1 type type2 : EPdfContentsType.t)
    (keyword0 keyword1 keyword keyword2 : string)
    (variant0 variant1 variant variant2 : PdfVariant) (ok1 ok2 : bool) :
  TryReadNext fuel1 t0 type0 keyword0 variant0
  = Returns (ok1, type1, keyword1, variant1, t1) →
  TryReadNext fuel2 t1 type keyword variant
  = Returns (ok2, type2, keyword2, variant2, t2) →
  (type2 = EPdfContentsType.ImageData
   → type1 = EPdfContentsType.ImageDictionary)
  ∧ (type1 = EPdfContentsType.ImageDictionary
     → ok2 = true ∧ type2 = EPdfContentsType.ImageData
       ∨ ok2 = false ∧ type2 = EPdfContentsType.Unknown).
Proof.
  intros Hfirst Hsecond.
  apply TryReadNext_cases in Hfirst. apply TryReadNext_cases in Hsecond.
  destruct Hsecond
    as [(Hin2 & _ & [(-> & -> & _) | (-> & ->)])
       | (Hin2 & [(-> & -> & _) | [(-> & _ & [-> | ->]) | (-> & _ & ->)]])];
  destruct Hfirst
    as [(_ & Hout1 & [(-> & -> & _) | (-> & ->)])
       | (_ & [(-> & -> & Hout1 & _)
              | [(-> & Hout1 & [-> | ->]) | (-> & Hout1 & ->)]])];
    try congruence; split; try done; auto.
Qed.

(** X21. The image data that [TryReadNext] yields is what stood on the
    device: when it yields [ImageData] the device held one character, the
    data, [EI] and one white-space character, in this order, and is left
    just after that white space; the keyword is empty. *)
Theorem TryReadNext_image_data_sound (fuel : nat)
    (t t' : PdfContentsTokenizer) (contentsType : EPdfContentsType.t)
    (keyword keyword' : string) (variant variant' : PdfVariant) (ok : bool) :
  m_buffer t ≠ [] →
  Z.of_nat (length (m_device t)) ≤ 2 ^ 32 →
  TryReadNext fuel t contentsType keyword variant
  = Returns (ok, EPdfContentsType.ImageData, keyword', variant', t') →
  ∃ (data : PdfData) (c0 ws : ascii),
    variant' = VRawData data
    ∧ keyword' = EmptyString
    ∧ IsWhitespace ws = true
    ∧ m_device t
      = c0 :: String.list_ascii_of_string data
           ++ "E"%char :: "I"%char :: ws :: m_device t'.
Proof.
  intros Hne Hsmall Hrun. apply TryReadNext_cases in Hrun.
  destruct Hrun
    as [(_ & _ & [(_ & _ & -> & data & t1 & -> & Hdata & ->) | (_ & ?)])
       | (_ & [(_ & ? & _) | [(_ & _ & [? | ?]) | (_ & _ & ?)]])];
    try done.
  apply tryReadInlineImgData_true in Hdata as (c0 & device & Hdev & Hdata).
  rewrite Hdev in Hsmall. simpl in Hsmall.
  apply read_until_EI_sound in Hdata as (ws & Hws & ->); [| done | lia].
  by exists data, c0, ws.
Qed.

(** X22. [TryReadNext] comes to an end: if each token that [m_tokenizer]
    reads takes at least one character off the device and reading a variant
    adds none, then a fuel above the number of characters on the device is
    never spent. *)
Theorem TryReadNext_finishes (fuel : nat) (t : PdfContentsTokenizer)
    (contentsType : EPdfContentsType.t) (keyword : string)
    (variant : PdfVariant) :
  (∀ device buffer keyword variant gotToken psTokenType keyword' variant'
     device' buffer',
     PdfTokenizer_TryReadNext device buffer keyword variant
     = inr (gotToken, psTokenType, keyword', variant', device', buffer') →
     gotToken = true → (length device' < length device)%nat) →
  (∀ device buffer variant ok variant' device' buffer',
     PdfTokenizer_TryReadNextVariant device buffer variant
     = inr (ok, variant', device', buffer') →
     (length device' ≤ length device)%nat) →
  (length (m_device t) ≤ fuel)%nat →
  TryReadNext fuel t contentsType keyword variant ≠ Unfinished.
Proof.
  intros Hnext Hvariant Hfuel. unfold TryReadNext.
  destruct (m_readingInlineImgData t).
  - destruct (tryReadInlineImgData t EmptyString)
      as [[[found data] t1] | e |]; simpl; [by destruct found | done | done].
  - unfold tryReadNext, of_tokenizer.
    destruct (PdfTokenizer_TryReadNext _ _ _ _)
      as [e | [[[[[gotToken psTokenType] kw] v] device] buffer]] eqn:Htoken;
      simpl; [done |].
    destruct gotToken; simpl; [| done].
    apply Hnext in Htoken; [| done].
    destruct psTokenType; simpl; try done.
    destruct (String.eqb kw "BI"); [| done].
    unfold tryReadInlineImgDict.
    destruct (tryReadInlineImgDict_loop fuel (with_input t device buffer)
                EmptyString VNull [])
      as [[[ok2 dict] t2] | e | |] eqn:Hdict; simpl; try done.
    + by destruct ok2.
    + exfalso. revert Hdict.
      apply tryReadInlineImgDict_loop_finishes; [done | done |].
      simpl. lia.
Qed.

End ContentsTokenizerProtocol.

Lemma sample_word_shorter (device : list ascii) :
  (length (sample_word device).2 ≤ length device)%nat.
Proof.
  induction device as [| c device IH]; simpl; [done |].
  destruct (Ascii.eqb c " "); simpl; [lia |].
  destruct (sample_word device) as [word rest]. simpl in *. lia.
Qed.

Lemma sample_ptok_TryReadNext_consumes
    device buffer keyword variant gotToken psTokenType keyword' variant'
    device' buffer' :
  @PdfTokenizer_TryReadNext sample_ptok device buffer keyword variant
  = inr (gotToken, psTokenType, keyword', variant', device', buffer') →
  gotToken = true → (length device' < length device)%nat.
Proof.
  simpl. destruct device as [| c device]; [intros; simplify_eq |].
  pose proof (sample_word_shorter device) as Hshort.
  simpl. destruct (Ascii.eqb c " ").
  - intros ? _. simplify_eq. simpl. lia.
  - destruct (sample_word device) as [word rest]. simpl in Hshort.
    destruct (Ascii.eqb_spec c "/") as [-> | Hc]; intros ? _.
    + simplify_eq. simpl. lia.
    + assert (device' = rest) as ->; [| simpl; lia].
      destruct c as [[] [] [] [] [] [] [] []]; by simplify_eq.
Qed.

Lemma sample_ptok_TryReadNextVariant_consumes
    device buffer variant ok variant' device' buffer' :
  @PdfTokenizer_TryReadNextVariant sample_ptok device buffer variant
  = inr (ok, variant', device', buffer') →
  (length device' ≤ length device)%nat.
Proof.
  simpl. destruct device as [| c device]; [intros; by simplify_eq |].
  pose proof (sample_word_shorter device) as Hshort.
  simpl. destruct (Ascii.eqb c " ").
  - intros ?. simplify_eq. simpl. lia.
  - destruct (sample_word device) as [word rest]. simpl in Hshort.
    intros ?. assert (device' = rest) as ->; [| simpl; lia].
    destruct c as [[] [] [] [] [] [] [] []]; by simplify_eq.
Qed.


Lemma TryReadNext_result_protocol_witness :
  (true = false
   ↔ EPdfContentsType.ImageDictionary = EPdfContentsType.Unknown)
  ∧ (true = true
     ↔ EPdfContentsType.ImageDictionary = EPdfContentsType.ImageDictionary)
  ∧ (EPdfContentsType.ImageDictionary = EPdfContentsType.ImageData
     ↔ false = true ∧ true = true)
  ∧ (EPdfContentsType.ImageDictionary = EPdfContentsType.ImageData
     → ∃ data, VDictionary [("W", VName "X")] = VRawData data)
  ∧ (EPdfContentsType.ImageDictionary = EPdfContentsType.ImageDictionary
     → ∃ dict, VDictionary [("W", VName "X")] = VDictionary dict).
Proof.
  apply (@TryReadNext_result_protocol sample_tok sample_ptok 10
           (sample_contents "BI /W /X ID  abcEI Q" false)
           (sample_contents " abcEI Q" true)
           EPdfContentsType.Unknown EPdfContentsType.ImageDictionary
           "" "BI" VNull (VDictionary [("W", VName "X")]) true).
  reflexivity.
Defined.

Lemma image_data_follows_image_dictionary_witness :
  (EPdfContentsType.ImageData = EPdfContentsType.ImageData
   → EPdfContentsType.ImageDictionary = EPdfContentsType.ImageDictionary)
  ∧ (EPdfContentsType.ImageDictionary = EPdfContentsType.ImageDictionary
     → true = true
       ∧ EPdfContentsType.ImageData = EPdfContentsType.ImageData
       ∨ true = false
         ∧ EPdfContentsType.ImageData = EPdfContentsType.Unknown).
Proof.
  apply (@image_data_follows_image_dictionary sample_tok sample_ptok 10 10
           (sample_contents "BI /W /X ID  abcEI Q" false)
           (sample_contents " abcEI Q" true)
           {| m_buffer := String.list_ascii_of_string "abcEI"
                          ++ replicate 3 Ascii.zero;
              m_device := ["Q"%char];
              m_readingInlineImgData := false |}
           EPdfContentsType.Unknown EPdfContentsType.ImageDictionary
           EPdfContentsType.Unknown EPdfContentsType.ImageData
           "" "BI" "" "" VNull (VDictionary [("W", VName "X")]) VNull
           (VRawData "abc") true true).
  - reflexivity.
  - reflexivity.
Defined.

Lemma TryReadNext_image_data_sound_witness :
  ∃ (data : PdfData) (c0 ws : ascii),
    VRawData "abc" = VRawData data
    ∧ EmptyString = EmptyString
    ∧ @IsWhitespace sample_tok ws = true
    ∧ m_device (sample_contents " abcEI Q" true)
      = c0 :: String.list_ascii_of_string data
           ++ "E"%char :: "I"%char :: ws :: ["Q"%char].
Proof.
  apply (@TryReadNext_image_data_sound sample_tok sample_ptok 10
           (sample_contents " abcEI Q" true)
           {| m_buffer := String.list_ascii_of_string "abcEI"
                          ++ replicate 3 Ascii.zero;
              m_device := ["Q"%char];
              m_readingInlineImgData := false |}
           EPdfContentsType.Unknown "" "" VNull (VRawData "abc") true).
  - discriminate.
  - simpl. lia.
  - reflexivity.
Defined.

Lemma TryReadNext_finishes_witness :
  @TryReadNext sample_tok sample_ptok 20
    (sample_contents "BI /W /X ID  abcEI Q" false)
    EPdfContentsType.Unknown "" VNull
  ≠ Unfinished.
Proof.
  apply (@TryReadNext_finishes sample_tok sample_ptok 20
           (sample_contents "BI /W /X ID  abcEI Q" false)
           EPdfContentsType.Unknown "" VNull).
  - apply sample_ptok_TryReadNext_consumes.
  - apply sample_ptok_TryReadNextVariant_consumes.
  - simpl. lia.
Defined.

(** ** The append protocol of PdfObjectStream *)

Section ObjectStreamProtocol.
Import ObjectStream.
Context `{env : Env}.

Lemma bracketed_app (log1 log2 : list event) :
  ∀ open : bool,
    bracketed open (log1 ++ log2)
    = match bracketed open log1 with
      | Some open => bracketed open log2
      | Datatypes.None => Datatypes.None
      end.
Proof.
  induction log1 as [| e log1 IH]; intros open; simpl; [done |].
  destruct e, open; simpl; by rewrite ?IH.
Qed.

Lemma traced_log (e : event) (s : PdfObjectStream) (open open' : bool) :
  traced s open →
  bracketed open [e] = Some open' →
  traced (log e s) open'.
Proof.
  unfold traced. intros Hs He. simpl. by rewrite bracketed_app, Hs.
Qed.

Lemma BeginAppend_dirty_spec (filters : PdfFilterList)
    (clearExisting deleteFilters markObjectDirty : bool)
    (s : PdfObjectStream) :
  traced s (m_Append s) →
  traced (BeginAppend_dirty filters clearExisting deleteFilters
            markObjectDirty s).2
         (m_Append (BeginAppend_dirty filters clearExisting deleteFilters
                      markObjectDirty s).2)
  ∧ ((BeginAppend_dirty filters clearExisting deleteFilters
        markObjectDirty s).1 = Returned →
     m_Append s = false
     ∧ m_Append (BeginAppend_dirty filters clearExisting deleteFilters
                   markObjectDirty s).2 = true)
  ∧ (∀ msg,
       (BeginAppend_dirty filters clearExisting deleteFilters
          markObjectDirty s).1 = LogicError msg →
       m_Append s = true
       ∧ (BeginAppend_dirty filters clearExisting deleteFilters
            markObjectDirty s).2 = s)
  ∧ (m_Append s = true →
     ∃ msg, (BeginAppend_dirty filters clearExisting deleteFilters
               markObjectDirty s).1 = LogicError msg).
Proof.
  intros Hs. unfold BeginAppend_dirty, PDFMM_RAISE_LOGIC_IF.
  destruct (m_Append s) eqn:Happend.
  { simpl. rewrite Happend. repeat split; try done. by eexists. }
  set (s1 := if markObjectDirty then log SetDirty s else s).
  set (s2 := if GetDocument_is_null then s1 else log BeginAppendStream s1).
  assert (traced s2 false ∧ m_Append s2 = false) as [Hs2 Happend2].
  { subst s1 s2.
    destruct markObjectDirty, GetDocument_is_null; simpl;
      (split; [| done]);
      repeat (eapply traced_log; [| reflexivity]); exact Hs. }
  destruct (if negb clearExisting && negb (Nat.eqb (GetLength (events s2)) 0)
            then GetFilteredCopy (events s2)
            else inr Datatypes.None) as [e | buffer].
  { simpl. rewrite Happend2. repeat split; try done. }
  set (s3 := match filters with
             | [] => if deleteFilters then set_Filter Datatypes.None s2
                     else s2
             | [filter] =>
                 set_Filter (Some (VName (FilterTypeToName filter))) s2
             | _ =>
                 set_Filter
                   (Some (VArray
                            (map (λ filterType,
                                    VName (FilterTypeToName filterType))
                                 filters))) s2
             end).
  assert (traced s3 false) as Hs3.
  { subst s3. destruct filters as [| f [| g filters]];
      [by destruct deleteFilters | done | done]. }
  assert (traced (set_Append true (log (BeginAppendImpl filters) s3)) true)
    as Hs4.
  { apply (traced_log (BeginAppendImpl filters) s3 false true Hs3).
    reflexivity. }
  destruct buffer as [data |]; simpl.
  - repeat split; try done.
    apply (traced_log (AppendImpl data) _ true true Hs4). reflexivity.
  - repeat split; try done.
Qed.

Lemma endAppend_spec (s : PdfObjectStream) :
  traced s true →
  traced (endAppend s).2 false
  ∧ (endAppend s).1 = Returned
  ∧ m_Append (endAppend s).2 = false.
Proof.
  intros Hs. unfold endAppend.
  assert (traced (log EndAppendImpl (set_Append false s)) false) as Hs1.
  { apply (traced_log EndAppendImpl (set_Append false s) true false Hs).
    reflexivity. }
  destruct GetDocument_is_null; simpl; [done |].
  split; [| done].
  apply (traced_log EndAppendStream _ false false Hs1). reflexivity.
Qed.

Lemma append_spec (data : string) (s : PdfObjectStream) :
  traced s true →
  traced (append data s).2 true
  ∧ (append data s).1 = Returned
  ∧ m_Append (append data s).2 = m_Append s.
Proof.
  intros Hs. unfold append. simpl. split; [| done].
  apply (traced_log (AppendImpl data) s true true Hs). reflexivity.
Qed.

Lemma Set_spec (begin : action) (buffer : string) (s : PdfObjectStream) :
  (∀ s, traced s (m_Append s) →
        traced (begin s).2 (m_Append (begin s).2)
        ∧ ((begin s).1 = Returned →
           m_Append s = false ∧ m_Append (begin s).2 = true)
        ∧ (∀ msg, (begin s).1 = LogicError msg →
                  m_Append s = true ∧ (begin s).2 = s)
        ∧ (m_Append s = true → ∃ msg, (begin s).1 = LogicError msg)) →
  traced s (m_Append s) →
  traced (seq begin (seq (append buffer) endAppend) s).2
         (m_Append (seq begin (seq (append buffer) endAppend) s).2)
  ∧ (∀ msg,
       (seq begin (seq (append buffer) endAppend) s).1 = LogicError msg →
       m_Append s = true
       ∧ (seq begin (seq (append buffer) endAppend) s).2 = s)
  ∧ (m_Append s = true →
     ∃ msg, (seq begin (seq (append buffer) endAppend) s).1
            = LogicError msg).
Proof.
  intros Hbegin Hs.
  destruct (Hbegin s Hs) as (Htraced & Hreturned & Hlogic & Hraise).
  unfold seq.
  destruct (begin s) as [[| msg | e] s1] eqn:Hrun; simpl in *.
  - destruct (Hreturned eq_refl) as [Hclosed Hopen]. rewrite Hopen in Htraced.
    destruct (append_spec buffer s1 Htraced) as (Ha & _ & _).
    destruct (endAppend_spec _ Ha) as (He & Hre & Hme).
    unfold append in *. simpl in *.
    rewrite Hme. split; [done |]. split; [done |]. by rewrite Hclosed.
  - destruct (Hlogic msg eq_refl) as [Hopen ->].
    repeat split; try done.
  - repeat split; done.
Qed.

Lemma perform_traced (c : call) (s : PdfObjectStream) :
  traced s (m_Append s) →
  traced (perform c s).2 (m_Append (perform c s).2).
Proof.
  intros Hs. destruct c; simpl.
  - apply BeginAppend_dirty_spec, Hs.
  - apply BeginAppend_dirty_spec, Hs.
  - apply BeginAppend_dirty_spec, Hs.
  - unfold Append, PDFMM_RAISE_LOGIC_IF.
    destruct (m_Append s) eqn:Happend; simpl; [| by rewrite Happend].
    destruct (Nat.eqb (String.length data) 0); simpl; rewrite Happend;
      [done |].
    by apply (traced_log (AppendImpl data) s true true Hs).
  - unfold EndAppend, PDFMM_RAISE_LOGIC_IF.
    destruct (m_Append s) eqn:Happend; cbn [negb];
      [| by simpl; rewrite Happend].
    destruct (endAppend_spec s Hs) as (He & _ & Hme). by rewrite Hme.
  - unfold Set_buffer.
    destruct (Nat.eqb (String.length buffer) 0); [done |].
    apply Set_spec; [| done].
    intros s0. apply BeginAppend_dirty_spec.
  - unfold Set_filters.
    destruct (Nat.eqb (String.length buffer) 0); [done |].
    apply Set_spec; [| done].
    intros s0. apply BeginAppend_dirty_spec.
  - unfold MoveTo, PDFMM_RAISE_LOGIC_IF.
    destruct (m_Append s) eqn:Happend; simpl; rewrite Happend; [done |].
    by apply (traced_log MoveStreamFrom s false false Hs).
  - unfold EnsureAppendClosed, PDFMM_RAISE_LOGIC_IF.
    by destruct (m_Append s) eqn:Happend; simpl; rewrite Happend.
Qed.

(** X23. Whatever calls a client makes on a new stream, in whatever order,
    and going on after the calls that throw: the implementation sees
    [BeginAppendImpl], [AppendImpl] and [EndAppendImpl] in brackets only
    (no append or end outside of a begin, no begin inside of one), the
    stream is never moved inside a bracket, and [m_Append] tells whether a
    bracket is open. *)
Theorem implementation_calls_are_bracketed (parent_Filter : option PdfVariant)
    (calls : list call) :
  bracketed false (events (client calls (create parent_Filter)))
  = Some (m_Append (client calls (create parent_Filter))).
Proof.
  change (traced (client calls (create parent_Filter))
            (m_Append (client calls (create parent_Filter)))).
  assert (traced (create parent_Filter) (m_Append (create parent_Filter)))
    as Hcreate by done.
  revert Hcreate. generalize (create parent_Filter).
  induction calls as [| c calls IH]; intros s Hs; [done |].
  simpl. apply IH. by apply perform_traced.
Qed.

(** X24. A call throws a logic error exactly when it is made out of turn:
    [BeginAppend], [MoveTo], [EnsureAppendClosed] and [Set] of a buffer
    that is not empty while the stream is appending, [Append] and
    [EndAppend] while it is not.  A call that throws a logic error has
    changed nothing: neither [m_Append], nor the parent, nor the
    implementation. *)
Theorem logic_error_iff_out_of_turn (c : call) (s : PdfObjectStream) :
  ((∃ msg, (perform c s).1 = LogicError msg)
   ↔ needs_closed c && m_Append s || needs_open c && negb (m_Append s)
     = true)
  ∧ (∀ msg, (perform c s).1 = LogicError msg → (perform c s).2 = s).
Proof.
  assert (∀ filters clearExisting deleteFilters markObjectDirty,
    ((∃ msg, (BeginAppend_dirty filters clearExisting deleteFilters
                markObjectDirty s).1 = LogicError msg)
     ↔ m_Append s = true)
    ∧ (∀ msg, (BeginAppend_dirty filters clearExisting deleteFilters
                 markObjectDirty s).1 = LogicError msg →
              (BeginAppend_dirty filters clearExisting deleteFilters
                 markObjectDirty s).2 = s)) as Hbegin.
  { intros filters clearExisting deleteFilters markObjectDirty.
    unfold BeginAppend_dirty, PDFMM_RAISE_LOGIC_IF.
    destruct (m_Append s) eqn:Happend; simpl.
    { split; [| done]. split; [done | by eexists]. }
    destruct (if negb clearExisting && _ then _ else _) as [e | [data |]];
      simpl; (split; [split; [by intros [? ?] | done] | done]). }
  assert (∀ begin buffer,
    (((∃ msg, (begin s).1 = LogicError msg) ↔ m_Append s = true)
     ∧ (∀ msg, (begin s).1 = LogicError msg → (begin s).2 = s)) →
    ((∃ msg, (seq begin (seq (append buffer) endAppend) s).1
             = LogicError msg)
     ↔ m_Append s = true)
    ∧ (∀ msg, (seq begin (seq (append buffer) endAppend) s).1
              = LogicError msg →
              (seq begin (seq (append buffer) endAppend) s).2 = s)) as Hset.
  { intros begin buffer [Hiff Hsame]. unfold seq.
    destruct (begin s) as [[| msg | e] s1] eqn:Hrun; simpl in *.
    - unfold endAppend. destruct GetDocument_is_null; simpl;
        (split; [| done]); rewrite <- Hiff;
        (split; [by intros [? ?] | by intros [? ?]]).
    - split; [| by apply Hsame]. by rewrite <- Hiff.
    - split; [| done].
      rewrite <- Hiff. split; [by intros [? ?] | by intros [? ?]]. }
  destruct c; simpl; rewrite ?orb_false_r, ?andb_true_l, ?andb_false_l;
    try apply Hbegin.
  - unfold Append, PDFMM_RAISE_LOGIC_IF.
    destruct (m_Append s); simpl.
    + destruct (Nat.eqb (String.length data) 0); simpl;
        (split; [split; [by intros [? ?] | done] | done]).
    + split; [| done]. split; [done | by eexists].
  - unfold EndAppend, PDFMM_RAISE_LOGIC_IF.
    destruct (m_Append s); simpl.
    + unfold endAppend. destruct GetDocument_is_null; simpl;
        (split; [split; [by intros [? ?] | done] | done]).
    + split; [| done]. split; [done | by eexists].
  - unfold Set_buffer.
    destruct (Nat.eqb (String.length buffer) 0); simpl.
    + split; [split; [by intros [? ?] | done] | done].
    + apply Hset, Hbegin.
  - unfold Set_filters.
    destruct (Nat.eqb (String.length buffer) 0); simpl.
    + split; [split; [by intros [? ?] | done] | done].
    + apply Hset, Hbegin.
  - unfold MoveTo, PDFMM_RAISE_LOGIC_IF.
    destruct (m_Append s); simpl; split; try done;
      [split; [done | by eexists] | split; [by intros [? ?] | done]].
  - unfold EnsureAppendClosed, PDFMM_RAISE_LOGIC_IF.
    destruct (m_Append s); simpl; split; try done;
      [split; [done | by eexists] | split; [by intros [? ?] | done]].
Qed.

(** X25. [Set] of a buffer that is not empty does what a client does who
    calls [BeginAppend], [Append] and [EndAppend] in a row and stops at the
    first call that throws; the same holds with a list of filters.  [Set]
    of an empty buffer is not that: it returns at once and leaves the
    stream as it is, old content included. *)
Theorem Set_is_begin_append_end (buffer : string) (filters : PdfFilterList)
    (s : PdfObjectStream) :
  buffer ≠ EmptyString →
  Set_buffer buffer s
  = seq (BeginAppend clearExisting_default)
      (seq (Append buffer) EndAppend) s
  ∧ Set_filters buffer filters s
    = seq (BeginAppend_filters filters clearExisting_default
             deleteFilters_default)
        (seq (Append buffer) EndAppend) s
  ∧ Set_buffer EmptyString s = (Returned, s)
  ∧ Set_filters EmptyString filters s = (Returned, s).
Proof.
  intros Hne.
  assert (Nat.eqb (String.length buffer) 0 = false) as Hlen.
  { apply Nat.eqb_neq. by destruct buffer. }
  assert (∀ filters clearExisting deleteFilters,
    seq (BeginAppend_filters filters clearExisting deleteFilters)
      (seq (append buffer) endAppend) s
    = seq (BeginAppend_filters filters clearExisting deleteFilters)
        (seq (Append buffer) EndAppend) s) as Hsame.
  { intros filters' clearExisting deleteFilters.
    unfold seq at 1 3, BeginAppend_filters, BeginAppend_dirty,
      PDFMM_RAISE_LOGIC_IF.
    destruct (m_Append s); [done |].
    destruct (if negb clearExisting && _ then _ else _) as [e | [data |]];
      simpl; [done | |];
      unfold seq, Append, EndAppend, PDFMM_RAISE_LOGIC_IF; simpl;
      by rewrite Hlen. }
  unfold Set_buffer, Set_filters. rewrite Hlen. simpl.
  repeat split; apply Hsame.
Qed.

End ObjectStreamProtocol.

Lemma Set_is_begin_append_end_witness :
  @ObjectStream.Set_buffer ObjectStream.sample_env "data"
    (ObjectStream.create None)
  = ObjectStream.seq
      (@ObjectStream.BeginAppend ObjectStream.sample_env true)
      (ObjectStream.seq (ObjectStream.Append "data")
         (@ObjectStream.EndAppend ObjectStream.sample_env))
      (ObjectStream.create None)
  ∧ @ObjectStream.Set_filters ObjectStream.sample_env "data"
      [PdfFilterType.ASCIIHexDecode; PdfFilterType.FlateDecode]
      (ObjectStream.create None)
    = ObjectStream.seq
        (@ObjectStream.BeginAppend_filters ObjectStream.sample_env
           [PdfFilterType.ASCIIHexDecode; PdfFilterType.FlateDecode]
           true true)
        (ObjectStream.seq (ObjectStream.Append "data")
           (@ObjectStream.EndAppend ObjectStream.sample_env))
        (ObjectStream.create None)
  ∧ @ObjectStream.Set_buffer ObjectStream.sample_env ""
      (ObjectStream.create None)
    = (ObjectStream.Returned, ObjectStream.create None)
  ∧ @ObjectStream.Set_filters ObjectStream.sample_env ""
      [PdfFilterType.ASCIIHexDecode; PdfFilterType.FlateDecode]
      (ObjectStream.create None)
    = (ObjectStream.Returned, ObjectStream.create None).
Proof.
  apply (@Set_is_begin_append_end ObjectStream.sample_env "data"
           [PdfFilterType.ASCIIHexDecode; PdfFilterType.FlateDecode]
           (ObjectStream.create None)).
  discriminate.
Defined.

Section ObjectStreamRawData.
Import ObjectStream.
Context `{env : Env} `{input : InputEnv}.

Lemma appended_app (log1 log2 : list event) :
  appended (log1 ++ log2) = appended log1 + appended log2.
Proof.
  induction log1 as [| e log1 IH]; simpl; [done |].
  destruct e; lia.
Qed.

Lemma to_ssize_t_small (z : Z) : 0 ≤ z < 2 ^ 63 → to_ssize_t z = z.
Proof. intros Hz. unfold to_ssize_t. rewrite Z.mod_small; lia. Qed.

Lemma to_size_t_small (z : Z) : 0 ≤ z < 2 ^ 63 → to_size_t z = z.
Proof. intros Hz. unfold to_size_t. rewrite Z.mod_small; lia. Qed.

Lemma copy_len_spec :
  (∀ stream size data eof stream',
     0 ≤ size → Read stream size = (data, eof, stream') →
     Z.of_nat (String.length data) ≤ size) →
  (∀ stream size data stream',
     0 < size → Read stream size = (data, false, stream') →
     (0 < String.length data)%nat) →
  ∀ (fuel : nat) (stream : PdfInputStream) (len : Z) (s : PdfObjectStream),
    0 ≤ len < 2 ^ 63 →
    (Z.to_nat len < fuel)%nat →
    ∃ stream' s',
      copy_len fuel stream len s = Some (stream', s')
      ∧ m_Append s' = m_Append s
      ∧ parent_Filter s' = parent_Filter s
      ∧ (∃ chunks, events s' = events s ++ map AppendImpl chunks)
      ∧ appended (events s') - appended (events s) ≤ len.
Proof.
  intros Hread Hprogress.
  induction fuel as [| fuel IH]; intros stream len s Hlen Hfuel; [lia |].
  simpl. rewrite to_size_t_small by done.
  assert (0 ≤ Z.min BUFFER_SIZE len) as Hsize by (unfold BUFFER_SIZE; lia).
  destruct (Read stream (Z.min BUFFER_SIZE len)) as [[data eof] stream1]
    eqn:Hrun.
  pose proof (Hread _ _ _ _ _ Hsize Hrun) as Hdata.
  rewrite to_ssize_t_small by lia.
  assert (appended (events (log (AppendImpl data) s)) - appended (events s)
          = Z.of_nat (String.length data)) as Happ.
  { simpl. rewrite appended_app. simpl. lia. }
  destruct ((0 <? len - Z.of_nat (String.length data)) && negb eof)
    eqn:Hgo.
  - apply andb_true_iff in Hgo as [Hpos Heof].
    apply Z.ltb_lt in Hpos. apply negb_true_iff in Heof. subst eof.
    assert (0 < String.length data)%nat as Hsome.
    { apply (Hprogress stream (Z.min BUFFER_SIZE len) data stream1);
        [unfold BUFFER_SIZE; lia | done]. }
    destruct (IH stream1 (len - Z.of_nat (String.length data))
                (log (AppendImpl data) s))
      as (stream' & s' & -> & Happend & Hfilter & [chunks Hchunks] & Hsum);
      [lia | lia |].
    exists stream', s'. split; [done |]. split; [done |]. split; [done |].
    split; [| lia].
    exists (data :: chunks). rewrite Hchunks. simpl.
    by rewrite <- app_assoc.
  - exists stream1, (log (AppendImpl data) s).
    split; [done |]. split; [done |]. split; [done |].
    split; [by exists [data] | lia].
Qed.

(** X26. [SetRawData(stream, len, markObjectDirty)] with [len] of 0 or
    more, on a stream that is not appending, reading from an input that
    yields at most what it is asked for and at least one character as long
    as it is not at its end: the call returns, with the stream closed again,
    the [/Filter] entry of the parent as it was, and at most [len]
    characters handed to the implementation, in one bracket opened with an
    empty filter list. *)
Theorem SetRawData_copies_at_most_len (fuel : nat) (stream : PdfInputStream)
    (len : Z) (markObjectDirty : bool) (s : PdfObjectStream) :
  (∀ stream size data eof stream',
     0 ≤ size → Read stream size = (data, eof, stream') →
     Z.of_nat (String.length data) ≤ size) →
  (∀ stream size data stream',
     0 < size → Read stream size = (data, false, stream') →
     (0 < String.length data)%nat) →
  0 ≤ len < 2 ^ 63 →
  m_Append s = false →
  (Z.to_nat len < fuel)%nat →
  ∃ stream' s' before chunks after,
    SetRawData fuel stream len markObjectDirty s
    = Some (Returned, stream', s')
    ∧ m_Append s' = false
    ∧ parent_Filter s' = parent_Filter s
    ∧ events s'
      = events s ++ before ++ [BeginAppendImpl []]
        ++ map AppendImpl chunks ++ [EndAppendImpl] ++ after
    ∧ appended before = 0 ∧ appended after = 0
    ∧ appended (events s') - appended (events s) ≤ len.
Proof.
  intros Hread Hprogress Hlen Hclosed Hfuel.
  unfold SetRawData, BeginAppend_dirty, PDFMM_RAISE_LOGIC_IF.
  rewrite Hclosed. cbn [negb andb].
  destruct (Z.ltb_spec len 0) as [? | _]; [lia |].
  set (before := (if markObjectDirty then [SetDirty] else [])
                 ++ (if GetDocument_is_null then [] else [BeginAppendStream])).
  set (s1 := set_Append true
               (log (BeginAppendImpl [])
                  (if GetDocument_is_null
                   then if markObjectDirty then log SetDirty s else s
                   else log BeginAppendStream
                          (if markObjectDirty then log SetDirty s else s)))).
  assert (events s1 = events s ++ before ++ [BeginAppendImpl []]
          ∧ parent_Filter s1 = parent_Filter s) as [Hevents1 Hfilter1].
  { subst s1 before. destruct GetDocument_is_null, markObjectDirty; simpl;
      by rewrite <- ?app_assoc. }
  change (append ?d ?x) with (Returned, log (AppendImpl d) x). 
  fold s1.
  destruct (copy_len_spec Hread Hprogress fuel stream len s1 Hlen Hfuel)
    as (stream' & s2 & -> & Happend & Hfilter & [chunks Hchunks] & Hsum).
  set (after := if GetDocument_is_null then [] else [EndAppendStream]).
  exists stream'. eexists. exists before, chunks, after.
  split; [unfold endAppend; reflexivity |].
  split; [by destruct GetDocument_is_null |].
  split; [destruct GetDocument_is_null; simpl; congruence |].
  assert (appended before = 0) as Hbefore.
  { subst before. by destruct markObjectDirty, GetDocument_is_null. }
  assert (appended after = 0) as Hafter.
  { subst after. by destruct GetDocument_is_null. }
  assert (events (if GetDocument_is_null
                  then log EndAppendImpl (set_Append false s2)
                  else log EndAppendStream
                         (log EndAppendImpl (set_Append false s2)))
          = events s ++ before ++ [BeginAppendImpl []]
            ++ map AppendImpl chunks ++ [EndAppendImpl] ++ after) as Hall.
  { subst after. destruct GetDocument_is_null; simpl;
      rewrite Hchunks, Hevents1; by rewrite <- ?app_assoc. }
  split; [exact Hall |]. split; [done |]. split; [done |].
  rewrite Hall. rewrite Hchunks, Hevents1 in Hsum.
  rewrite !appended_app in *. simpl in *. lia.
Qed.

End ObjectStreamRawData.

Lemma length_xs (n : nat) : String.length (ObjectStream.xs n) = n.
Proof. induction n as [| n IH]; simpl; [done | by rewrite IH]. Qed.

Lemma sample_input_Read_bounded stream size data eof stream' :
  0 ≤ size →
  @ObjectStream.Read ObjectStream.sample_input stream size
  = (data, eof, stream') →
  Z.of_nat (String.length data) ≤ size.
Proof.
  simpl. intros Hsize Hrun. simplify_eq. rewrite length_xs. lia.
Qed.

Lemma sample_input_Read_progress stream size data stream' :
  0 < size →
  @ObjectStream.Read ObjectStream.sample_input stream size
  = (data, false, stream') →
  (0 < String.length data)%nat.
Proof.
  simpl. intros Hsize Hrun. simplify_eq. rewrite length_xs.
  match goal with H : Nat.eqb _ _ = false |- _ =>
    apply Nat.eqb_neq in H end.
  lia.
Qed.

Lemma SetRawData_copies_at_most_len_witness :
  ∃ stream' s' before chunks after,
    @ObjectStream.SetRawData ObjectStream.sample_env ObjectStream.sample_input
      6 10%nat 5 true (ObjectStream.create None)
    = Some (ObjectStream.Returned, stream', s')
    ∧ ObjectStream.m_Append s' = false
    ∧ ObjectStream.parent_Filter s'
      = ObjectStream.parent_Filter (ObjectStream.create None)
    ∧ ObjectStream.events s'
      = ObjectStream.events (ObjectStream.create None) ++ before
        ++ [ObjectStream.BeginAppendImpl []]
        ++ map ObjectStream.AppendImpl chunks
        ++ [ObjectStream.EndAppendImpl] ++ after
    ∧ ObjectStream.appended before = 0 ∧ ObjectStream.appended after = 0
    ∧ ObjectStream.appended (ObjectStream.events s')
      - ObjectStream.appended
          (ObjectStream.events (ObjectStream.create None))
      ≤ 5.
Proof.
  apply (@SetRawData_copies_at_most_len ObjectStream.sample_env
           ObjectStream.sample_input 6 10%nat 5 true
           (ObjectStream.create None)).
  - apply sample_input_Read_bounded.
  - apply sample_input_Read_progress.
  - lia.
  - reflexivity.
  - lia.
Defined.
